(** * openage: the schema of [empires2_x1_p1.dat] and its loader

    A shallow embedding of [openage/convert/gamedata/empiresdat.py]:
    the version-dependent member list of [EmpiresDat], the wrapper
    structure, and [load_gamespec] with its cache handling.  Python's
    exceptions are an explicit result type, the file system, the file
    object and the log are an explicit state. *)

From Stdlib Require Import ZArith Lia Bool Ascii String List.
From Stdlib Require Strings.Byte.
From stdpp Require Import gmap strings list pretty.
Import ListNotations.
Open Scope string_scope.
Open Scope list_scope.

(** ** Editions and versions *)

(** Modelled from the spec: [GameEdition] is declared in
    [openage.convert.dataformat.version_detect], which is not part of the
    sources at hand.  The six members that [empiresdat.py] names are
    constructors of their own; [OtherEdition] stands for any further
    member of the enum (an "edition" in the sense of the glossary that no
    branch names). *)
Inductive GameEdition : Type :=
| ROR
| AOC
| HDEDITION
| AOE1DE
| AOE2DE
| SWGB
| OtherEdition (tag : nat).

(** Modelled from the spec: [GameExpansion] ("sub-expansion/variant") is
    declared next to [GameEdition]; the code under study never inspects
    it, so a tag is all that is kept. *)
Inductive GameExpansion : Type :=
| Expansion (tag : nat).

(** [game_version] is the tuple [(edition, expansions)]; the code only
    reads [game_version[0]]. *)
Definition game_version_t : Type := (GameEdition * list GameExpansion)%type.

Definition game_version_0 (game_version : game_version_t) : GameEdition :=
  fst game_version.

(** [a is b] on enum members. *)
Definition edition_is (a b : GameEdition) : bool :=
  match a, b with
  | ROR, ROR | AOC, AOC | HDEDITION, HDEDITION
  | AOE1DE, AOE1DE | AOE2DE, AOE2DE | SWGB, SWGB => true
  | OtherEdition n, OtherEdition m => Nat.eqb n m
  | _, _ => false
  end.

(** [a in (b1, ..., bn)] *)
Definition edition_in (a : GameEdition) (bs : list GameEdition) : bool :=
  existsb (edition_is a) bs.

(** The editions that some branch of the schema builder names. *)
Definition known_editions : list GameEdition :=
  [SWGB; AOE2DE; AOE1DE; HDEDITION; AOC; ROR].

(** ** Member descriptors *)

(** [dataformat.member_access]: the read modes used by this file. *)
Inductive MemberAccess : Type :=
| READ
| READ_EXPORT
| READ_UNKNOWN
| SKIP.

(** [dataformat.value_members.MemberTypes], imported as [StorageType]. *)
Inductive StorageType : Type :=
| INT_MEMBER
| FLOAT_MEMBER
| ID_MEMBER
| STRING_MEMBER
| ARRAY_INT
| ARRAY_ID
| ARRAY_CONTAINER.

(** The structure classes that the member list refers to. *)
Inductive struct_ref : Type :=
| terrain_TerrainRestriction
| playercolor_PlayerColor
| sound_Sound
| graphic_Graphic
| terrain_TileSize
| terrain_Terrain
| terrain_TerrainBorder
| maps_MapInfo
| maps_Map
| tech_EffectBundle
| unit_UnitLine
| unit_UnitHeader
| civ_Civ
| research_Tech
| tech_AgeTechTree
| tech_BuildingConnection
| tech_UnitConnection
| tech_ResearchConnection
| EmpiresDat_ref.

(** A [length=] argument is an integer literal or the name of a sibling. *)
Inductive length_t : Type :=
| LenInt (n : nat)
| LenName (name : string).

(** [SubdataMember(ref_type, length, passed_args=None, offset_to=None)].
    [offset_to] is a pair of a sibling name and a predicate on its
    entries. *)
Record SubdataMember : Type := mkSubdataMember {
  ref_type : struct_ref;
  length_src : length_t;
  passed_args : gset string;
  offset_to : option (string * (Z -> bool))
}.

(** The fourth component of a member: a type string or a [SubdataMember]. *)
Inductive var_type_t : Type :=
| TypeStr (s : string)
| Subdata (m : SubdataMember).

(** One entry of a member list: [(access, name, storage type, type)]. *)
Definition member : Type :=
  (MemberAccess * option string * StorageType * var_type_t)%type.

Definition member_access (m : member) : MemberAccess := fst (fst (fst m)).
Definition member_name (m : member) : option string := snd (fst (fst m)).
Definition member_storage (m : member) : StorageType := snd (fst m).
Definition member_type (m : member) : var_type_t := snd m.

Module EmpiresDat.

(** [EmpiresDat.get_data_format_members(cls, game_version)]: every
    [extend]/[append] of the source rebinds [data_format]. *)
Definition get_data_format_members (game_version : game_version_t) : list member :=
  let ed := game_version_0 game_version in
  let data_format :=
    [(READ, Some "versionstr", STRING_MEMBER, TypeStr "char[8]")] in

  let data_format :=
    if edition_is ed SWGB then
      data_format ++ [
        (READ, Some "civ_count_swgb", INT_MEMBER, TypeStr "uint16_t");
        (READ_UNKNOWN, None, INT_MEMBER, TypeStr "int32_t");
        (READ_UNKNOWN, None, INT_MEMBER, TypeStr "int32_t");
        (READ_UNKNOWN, None, INT_MEMBER, TypeStr "int32_t");
        (READ_UNKNOWN, None, INT_MEMBER, TypeStr "int32_t")
      ]
    else data_format in

  (* terrain header data *)
  let data_format := data_format ++ [
    (READ, Some "terrain_restriction_count", INT_MEMBER, TypeStr "uint16_t");
    (READ, Some "terrain_count", INT_MEMBER, TypeStr "uint16_t");
    (READ, Some "float_ptr_terrain_tables", ARRAY_ID,
       TypeStr "int32_t[terrain_restriction_count]")
  ] in

  let data_format :=
    if negb (edition_in ed [ROR; AOE1DE]) then
      data_format ++ [
        (READ, Some "terrain_pass_graphics_ptrs", ARRAY_ID,
           TypeStr "int32_t[terrain_restriction_count]")
      ]
    else data_format in

  let data_format := data_format ++ [
    (READ, Some "terrain_restrictions", ARRAY_CONTAINER, Subdata
       (mkSubdataMember terrain_TerrainRestriction
          (LenName "terrain_restriction_count") {["terrain_count"]} None));

    (* player color data *)
    (READ, Some "player_color_count", INT_MEMBER, TypeStr "uint16_t");
    (READ, Some "player_colors", ARRAY_CONTAINER, Subdata
       (mkSubdataMember playercolor_PlayerColor
          (LenName "player_color_count") ∅ None));

    (* sound data *)
    (READ_EXPORT, Some "sound_count", INT_MEMBER, TypeStr "uint16_t");
    (READ_EXPORT, Some "sounds", ARRAY_CONTAINER, Subdata
       (mkSubdataMember sound_Sound (LenName "sound_count") ∅ None));

    (* graphic data *)
    (READ, Some "graphic_count", INT_MEMBER, TypeStr "uint16_t");
    (READ, Some "graphic_ptrs", ARRAY_ID, TypeStr "uint32_t[graphic_count]");
    (READ_EXPORT, Some "graphics", ARRAY_CONTAINER, Subdata
       (mkSubdataMember graphic_Graphic (LenName "graphic_count") ∅
          (Some ("graphic_ptrs", fun o => (0 <? o)%Z))));

    (* terrain data *)
    (SKIP, Some "virt_function_ptr", ID_MEMBER, TypeStr "int32_t");
    (SKIP, Some "map_pointer", ID_MEMBER, TypeStr "int32_t");
    (SKIP, Some "map_width", INT_MEMBER, TypeStr "int32_t");
    (SKIP, Some "map_height", INT_MEMBER, TypeStr "int32_t");
    (SKIP, Some "world_width", INT_MEMBER, TypeStr "int32_t");
    (SKIP, Some "world_height", INT_MEMBER, TypeStr "int32_t");
    (READ_EXPORT, Some "tile_sizes", ARRAY_CONTAINER, Subdata
       (mkSubdataMember terrain_TileSize (LenInt 19) ∅ None));
    (SKIP, Some "padding1", INT_MEMBER, TypeStr "int16_t")
  ] in

  (* Stored terrain number is hardcoded. *)
  let data_format :=
    if edition_is ed SWGB then
      data_format ++ [(READ_EXPORT, Some "terrains", ARRAY_CONTAINER, Subdata
        (mkSubdataMember terrain_Terrain (LenInt 55) ∅ None))]
    else if edition_is ed AOE2DE then
      data_format ++ [(READ_EXPORT, Some "terrains", ARRAY_CONTAINER, Subdata
        (mkSubdataMember terrain_Terrain (LenInt 200) ∅ None))]
    else if edition_is ed AOE1DE then
      data_format ++ [(READ_EXPORT, Some "terrains", ARRAY_CONTAINER, Subdata
        (mkSubdataMember terrain_Terrain (LenInt 96) ∅ None))]
    else if edition_is ed HDEDITION then
      data_format ++ [(READ_EXPORT, Some "terrains", ARRAY_CONTAINER, Subdata
        (mkSubdataMember terrain_Terrain (LenInt 100) ∅ None))]
    else if edition_is ed AOC then
      data_format ++ [(READ_EXPORT, Some "terrains", ARRAY_CONTAINER, Subdata
        (mkSubdataMember terrain_Terrain (LenInt 42) ∅ None))]
    else
      data_format ++ [(READ_EXPORT, Some "terrains", ARRAY_CONTAINER, Subdata
        (mkSubdataMember terrain_Terrain (LenInt 32) ∅ None))] in

  let data_format :=
    if negb (edition_is ed AOE2DE) then
      data_format ++ [
        (READ, Some "terrain_border", ARRAY_CONTAINER, Subdata
           (mkSubdataMember terrain_TerrainBorder (LenInt 16) ∅ None));
        (SKIP, Some "map_row_offset", INT_MEMBER, TypeStr "int32_t")
      ]
    else data_format in

  let data_format :=
    if negb (edition_in ed [ROR; AOE1DE]) then
      data_format ++ [
        (SKIP, Some "map_min_x", FLOAT_MEMBER, TypeStr "float");
        (SKIP, Some "map_min_y", FLOAT_MEMBER, TypeStr "float");
        (SKIP, Some "map_max_x", FLOAT_MEMBER, TypeStr "float");
        (SKIP, Some "map_max_y", FLOAT_MEMBER, TypeStr "float");
        (SKIP, Some "map_max_xplus1", FLOAT_MEMBER, TypeStr "float");
        (SKIP, Some "map_min_yplus1", FLOAT_MEMBER, TypeStr "float")
      ]
    else data_format in

  let data_format := data_format ++ [
    (READ, Some "terrain_count_additional", INT_MEMBER, TypeStr "uint16_t");
    (READ, Some "borders_used", INT_MEMBER, TypeStr "uint16_t");
    (READ, Some "max_terrain", INT_MEMBER, TypeStr "int16_t");
    (READ_EXPORT, Some "tile_width", INT_MEMBER, TypeStr "int16_t");
    (READ_EXPORT, Some "tile_height", INT_MEMBER, TypeStr "int16_t");
    (READ_EXPORT, Some "tile_half_height", INT_MEMBER, TypeStr "int16_t");
    (READ_EXPORT, Some "tile_half_width", INT_MEMBER, TypeStr "int16_t");
    (READ_EXPORT, Some "elev_height", INT_MEMBER, TypeStr "int16_t");
    (SKIP, Some "current_row", INT_MEMBER, TypeStr "int16_t");
    (SKIP, Some "current_column", INT_MEMBER, TypeStr "int16_t");
    (SKIP, Some "block_beginn_row", INT_MEMBER, TypeStr "int16_t");
    (SKIP, Some "block_end_row", INT_MEMBER, TypeStr "int16_t");
    (SKIP, Some "block_begin_column", INT_MEMBER, TypeStr "int16_t");
    (SKIP, Some "block_end_column", INT_MEMBER, TypeStr "int16_t")
  ] in

  let data_format :=
    if negb (edition_in ed [ROR; AOE1DE]) then
      data_format ++ [
        (SKIP, Some "search_map_ptr", INT_MEMBER, TypeStr "int32_t");
        (SKIP, Some "search_map_rows_ptr", INT_MEMBER, TypeStr "int32_t");
        (SKIP, Some "any_frame_change", INT_MEMBER, TypeStr "int8_t")
      ]
    else
      data_format ++ [
        (SKIP, Some "any_frame_change", INT_MEMBER, TypeStr "int32_t");
        (SKIP, Some "search_map_ptr", INT_MEMBER, TypeStr "int32_t");
        (SKIP, Some "search_map_rows_ptr", INT_MEMBER, TypeStr "int32_t")
      ] in

  let data_format := data_format ++ [
    (SKIP, Some "map_visible_flag", INT_MEMBER, TypeStr "int8_t");
    (SKIP, Some "fog_flag", INT_MEMBER, TypeStr "int8_t")
  ] in

  let data_format :=
    if negb (edition_is ed AOE2DE) then
      if edition_is ed SWGB then
        data_format ++ [
          (READ_UNKNOWN, Some "terrain_blob0", ARRAY_INT, TypeStr "uint8_t[25]");
          (READ_UNKNOWN, Some "terrain_blob1", ARRAY_INT, TypeStr "uint32_t[157]")
        ]
      else if edition_in ed [ROR; AOE1DE] then
        data_format ++ [
          (READ_UNKNOWN, Some "terrain_blob0", ARRAY_INT, TypeStr "uint8_t[2]");
          (READ_UNKNOWN, Some "terrain_blob1", ARRAY_INT, TypeStr "uint32_t[5]")
        ]
      else
        data_format ++ [
          (READ_UNKNOWN, Some "terrain_blob0", ARRAY_INT, TypeStr "uint8_t[21]");
          (READ_UNKNOWN, Some "terrain_blob1", ARRAY_INT, TypeStr "uint32_t[157]")
        ]
    else data_format in

  let data_format := data_format ++ [
    (* random map config *)
    (READ, Some "random_map_count", INT_MEMBER, TypeStr "uint32_t");
    (READ, Some "random_map_ptr", ID_MEMBER, TypeStr "uint32_t");
    (READ, Some "map_infos", ARRAY_CONTAINER, Subdata
       (mkSubdataMember maps_MapInfo (LenName "random_map_count") ∅ None));
    (READ, Some "maps", ARRAY_CONTAINER, Subdata
       (mkSubdataMember maps_Map (LenName "random_map_count") ∅ None));

    (* technology effect data *)
    (READ_EXPORT, Some "effect_bundle_count", INT_MEMBER, TypeStr "uint32_t");
    (READ_EXPORT, Some "effect_bundles", ARRAY_CONTAINER, Subdata
       (mkSubdataMember tech_EffectBundle (LenName "effect_bundle_count") ∅ None))
  ] in

  let data_format :=
    if edition_is ed SWGB then
      data_format ++ [
        (READ, Some "unit_line_count", INT_MEMBER, TypeStr "uint16_t");
        (READ, Some "unit_lines", ARRAY_CONTAINER, Subdata
           (mkSubdataMember unit_UnitLine (LenName "unit_line_count") ∅ None))
      ]
    else data_format in

  (* unit header data *)
  let data_format :=
    if negb (edition_in ed [ROR; AOE1DE]) then
      data_format ++ [
        (READ_EXPORT, Some "unit_count", INT_MEMBER, TypeStr "uint32_t");
        (READ_EXPORT, Some "unit_headers", ARRAY_CONTAINER, Subdata
           (mkSubdataMember unit_UnitHeader (LenName "unit_count") ∅ None))
      ]
    else data_format in

  (* civilisation data *)
  let data_format := data_format ++ [
    (READ_EXPORT, Some "civ_count", INT_MEMBER, TypeStr "uint16_t");
    (READ_EXPORT, Some "civs", ARRAY_CONTAINER, Subdata
       (mkSubdataMember civ_Civ (LenName "civ_count") ∅ None))
  ] in

  let data_format :=
    if edition_is ed SWGB then
      data_format ++ [(READ_UNKNOWN, None, INT_MEMBER, TypeStr "int8_t")]
    else data_format in

  (* research data *)
  let data_format := data_format ++ [
    (READ_EXPORT, Some "research_count", INT_MEMBER, TypeStr "uint16_t");
    (READ_EXPORT, Some "researches", ARRAY_CONTAINER, Subdata
       (mkSubdataMember research_Tech (LenName "research_count") ∅ None))
  ] in

  let data_format :=
    if edition_is ed SWGB then
      data_format ++ [(READ_UNKNOWN, None, INT_MEMBER, TypeStr "int8_t")]
    else data_format in

  let data_format :=
    if negb (edition_in ed [ROR; AOE1DE]) then
      let data_format := data_format ++ [
        (SKIP, Some "time_slice", INT_MEMBER, TypeStr "int32_t");
        (SKIP, Some "unit_kill_rate", INT_MEMBER, TypeStr "int32_t");
        (SKIP, Some "unit_kill_total", INT_MEMBER, TypeStr "int32_t");
        (SKIP, Some "unit_hitpoint_rate", INT_MEMBER, TypeStr "int32_t");
        (SKIP, Some "unit_hitpoint_total", INT_MEMBER, TypeStr "int32_t");
        (SKIP, Some "razing_kill_rate", INT_MEMBER, TypeStr "int32_t");
        (SKIP, Some "razing_kill_total", INT_MEMBER, TypeStr "int32_t")
      ] in

      (* technology tree data *)
      let data_format := data_format ++ [
        (READ_EXPORT, Some "age_connection_count", INT_MEMBER, TypeStr "uint8_t");
        (READ_EXPORT, Some "building_connection_count", INT_MEMBER, TypeStr "uint8_t")
      ] in

      let data_format :=
        if edition_is ed SWGB then
          data_format ++ [
            (READ_EXPORT, Some "unit_connection_count", INT_MEMBER, TypeStr "uint16_t")]
        else
          data_format ++ [
            (READ_EXPORT, Some "unit_connection_count", INT_MEMBER, TypeStr "uint8_t")] in

      data_format ++ [
        (READ_EXPORT, Some "tech_connection_count", INT_MEMBER, TypeStr "uint8_t");
        (READ_EXPORT, Some "total_unit_tech_groups", INT_MEMBER, TypeStr "int32_t");
        (READ_EXPORT, Some "age_connections", ARRAY_CONTAINER, Subdata
           (mkSubdataMember tech_AgeTechTree (LenName "age_connection_count") ∅ None));
        (READ_EXPORT, Some "building_connections", ARRAY_CONTAINER, Subdata
           (mkSubdataMember tech_BuildingConnection
              (LenName "building_connection_count") ∅ None));
        (READ_EXPORT, Some "unit_connections", ARRAY_CONTAINER, Subdata
           (mkSubdataMember tech_UnitConnection (LenName "unit_connection_count") ∅ None));
        (READ_EXPORT, Some "tech_connections", ARRAY_CONTAINER, Subdata
           (mkSubdataMember tech_ResearchConnection
              (LenName "tech_connection_count") ∅ None))
      ]
    else data_format in

  data_format.

End EmpiresDat.

Module EmpiresDatWrapper.

(** [EmpiresDatWrapper.get_data_format_members(cls, game_version)] *)
Definition get_data_format_members (game_version : game_version_t) : list member :=
  let data_format := [
    (READ_EXPORT, Some "empiresdat", ARRAY_CONTAINER, Subdata
       (mkSubdataMember EmpiresDat_ref (LenInt 1) ∅ None))
  ] in
  data_format.

End EmpiresDatWrapper.

(** ** Reading a member list statically *)

(** Modelled from the spec: how a type string carries an element count
    is decided in [GenieStructure] ([dataformat/genie_structure.py]),
    which is not part of the sources at hand.  Following the data model
    ("IdArray and ContainerArray entries always carry an explicit element
    count", "a literal integer, or the name of a sibling field"), the
    text between the brackets of ["type[count]"] is a literal when it
    consists of decimal digits and a sibling name otherwise. *)
Fixpoint before_char (c : ascii) (s : string) : string :=
  match s with
  | EmptyString => EmptyString
  | String a r => if Ascii.eqb a c then EmptyString else String a (before_char c r)
  end.

Fixpoint after_char (c : ascii) (s : string) : option string :=
  match s with
  | EmptyString => None
  | String a r => if Ascii.eqb a c then Some r else after_char c r
  end.

Definition is_digit (a : ascii) : bool :=
  (48 <=? nat_of_ascii a)%nat && (nat_of_ascii a <=? 57)%nat.

Fixpoint all_digits (s : string) : bool :=
  match s with
  | EmptyString => true
  | String a r => is_digit a && all_digits r
  end.

Fixpoint decimal_value (acc : nat) (s : string) : nat :=
  match s with
  | EmptyString => acc
  | String a r => decimal_value (10 * acc + (nat_of_ascii a - 48)) r
  end.

Definition parse_count (inner : string) : length_t :=
  match inner with
  | EmptyString => LenName inner
  | _ => if all_digits inner then LenInt (decimal_value 0 inner) else LenName inner
  end.

(** The element type of a type string: ["int32_t[n]"] gives ["int32_t"]. *)
Definition element_type (s : string) : string := before_char "[" s.

(** The element count of a type string, if it has one. *)
Definition array_length (s : string) : option length_t :=
  match after_char "[" s with
  | Some rest => Some (parse_count (before_char "]" rest))
  | None => None
  end.

Definition length_names (l : length_t) : list string :=
  match l with
  | LenInt _ => []
  | LenName n => [n]
  end.

(** The element count of a member, whichever way it is written. *)
Definition member_length (m : member) : option length_t :=
  match member_type m with
  | TypeStr s => array_length s
  | Subdata sm => Some (length_src sm)
  end.

(** The presence gate of a member: the name in [offset_to]. *)
Definition member_gate (m : member) : option string :=
  match member_type m with
  | TypeStr _ => None
  | Subdata sm => option_map fst (offset_to sm)
  end.

(** Every sibling name a member refers to: its length when given by
    name, the names in [passed_args], the name in [offset_to]. *)
Definition referenced_names (m : member) : list string :=
  match member_type m with
  | TypeStr s =>
      match array_length s with
      | Some l => length_names l
      | None => []
      end
  | Subdata sm =>
      length_names (length_src sm)
        ++ elements (passed_args sm)
        ++ match offset_to sm with
           | Some (n, _) => [n]
           | None => []
           end
  end.

(** [READ] and [READ_EXPORT] members are the ones whose value is kept
    (the spec's Store and StoreExported). *)
Definition is_stored (m : member) : bool :=
  match member_access m with
  | READ | READ_EXPORT => true
  | READ_UNKNOWN | SKIP => false
  end.

Definition has_name (n : string) (m : member) : bool :=
  match member_name m with
  | Some k => String.eqb k n
  | None => false
  end.

(** The names that are present, in list order. *)
Definition present_names (ds : list member) : list string :=
  omap member_name ds.

(** The names a later member may refer to once [m] has been read. *)
Definition stored_after (m : member) (stored : list string) : list string :=
  match member_name m with
  | Some n => if is_stored m then n :: stored else stored
  | None => stored
  end.

Definition name_in (stored : list string) (n : string) : bool :=
  existsb (String.eqb n) stored.

(** The check a reader performs implicitly: walking the list in order,
    every referenced name has been stored before its use. *)
Fixpoint scoped_from (stored : list string) (ds : list member) : bool :=
  match ds with
  | [] => true
  | d :: rest =>
      forallb (name_in stored) (referenced_names d)
        && scoped_from (stored_after d stored) rest
  end.

(** The same as a property of positions: whatever a member refers to is
    the name of a stored member strictly before it. *)
Definition well_scoped (ds : list member) : Prop :=
  forall pre d post n,
    ds = pre ++ d :: post ->
    In n (referenced_names d) ->
    exists e, In e pre /\ member_name e = Some n /\ is_stored e = true.

(** The edition-to-length table of the ["terrains"] member. *)
Definition terrains_length (ed : GameEdition) : nat :=
  match ed with
  | SWGB => 55
  | AOE2DE => 200
  | AOE1DE => 96
  | HDEDITION => 100
  | AOC => 42
  | _ => 32
  end.

Definition terrains_member (n : nat) : member :=
  (READ_EXPORT, Some "terrains", ARRAY_CONTAINER,
   Subdata (mkSubdataMember terrain_Terrain (LenInt n) ∅ None)).

(** The members that come before the first one named [n]. *)
Fixpoint members_before (n : string) (ds : list member) : list member :=
  match ds with
  | [] => []
  | d :: rest => if has_name n d then [] else d :: members_before n rest
  end.

(** Replace the literal length of the ["terrains"] member. *)
Definition with_terrains_length (n : nat) (m : member) : member :=
  if has_name "terrains" m then terrains_member n else m.

(** ** Results and errors *)

(** A call either returns a value or raises. *)
Inductive result (E A : Type) : Type :=
| Ok (a : A)
| Raise (e : E).
Arguments Ok {E A} a.
Arguments Raise {E A} e.

#[global] Instance result_ret {E} : MRet (result E) := fun _ a => Ok a.
#[global] Instance result_bind {E} : MBind (result E) :=
  fun _ _ f r => match r with Ok a => f a | Raise e => Raise e end.

(** The error taxonomy of the decoder (spec, section 7).
    [MalformedDescriptor] is not in that taxonomy: the spec does not say
    what happens with a descriptor whose type specification does not fit
    its storage kind, and the model needs an outcome there. *)
Inductive decode_error : Type :=
| TruncatedInput
| MissingLengthReference (name : string)
| UnsupportedVersion
| MalformedDescriptor.

Definition bytes : Type := list Byte.byte.

(** ** The decoder *)

(** Modelled from the spec: the nodes and values of a decoded tree
    ("ParsedNode", section 3).  A field is kept with its name, whether it
    is exported, and its value; an absent element of a gated array is
    [None]. *)
Inductive value : Type :=
| VInt (z : Z)
| VFloat (raw : bytes)
| VText (raw : bytes)
| VArray (zs : list Z)
| VNodes (ns : list (option ParsedNode))
with ParsedNode : Type :=
| Node (structure : struct_ref) (fields : list (string * bool * value)).

(** Modelled from the spec: the Primitive Codec (section 2) is not part
    of the sources at hand.  Widths follow the C type names; integers are
    little-endian (the example of section 8 reads [0x02,0x00] as 2), and
    a float is kept as its four raw bytes. *)
Definition prim_width (ty : string) : option nat :=
  if (String.eqb ty "int8_t" || String.eqb ty "uint8_t" || String.eqb ty "char")%bool
  then Some 1%nat
  else if (String.eqb ty "int16_t" || String.eqb ty "uint16_t")%bool
  then Some 2%nat
  else if (String.eqb ty "int32_t" || String.eqb ty "uint32_t" || String.eqb ty "float")%bool
  then Some 4%nat
  else None.

Definition prim_signed (ty : string) : bool :=
  String.eqb ty "int8_t" || String.eqb ty "int16_t" || String.eqb ty "int32_t".

Fixpoint le_unsigned (raw : bytes) : Z :=
  match raw with
  | [] => 0
  | b :: r => Z.of_N (Byte.to_N b) + 256 * le_unsigned r
  end.

Definition le_signed (raw : bytes) : Z :=
  let u := le_unsigned raw in
  let m := (2 ^ (8 * Z.of_nat (List.length raw)))%Z in
  if (2 * u <? m)%Z then u else (u - m)%Z.

Definition prim_int (ty : string) (raw : bytes) : Z :=
  if prim_signed ty then le_signed raw else le_unsigned raw.

Definition prim_value (ty : string) (raw : bytes) : value :=
  if String.eqb ty "float" then VFloat raw else VInt (prim_int ty raw).

(** Modelled from the spec: a consume step "fails with TruncatedInput if
    it would read past the end of the byte buffer". *)
Definition consume (data : bytes) (offset n : nat) : result decode_error bytes :=
  if (offset + n <=? List.length data)%nat
  then Ok (firstn n (skipn offset data))
  else Raise TruncatedInput.

Fixpoint chunks (w n : nat) (raw : bytes) : list bytes :=
  match n with
  | O => []
  | S n' => firstn w raw :: chunks w n' (skipn w raw)
  end.

Fixpoint until_nul (raw : bytes) : bytes :=
  match raw with
  | [] => []
  | b :: r => if Byte.eqb b Byte.x00 then [] else b :: until_nul r
  end.

Section Decoder.

(** Modelled from the spec: the decoders of the nested structures
    ([terrain.Terrain], [civ.Civ], ...) belong to modules that are not
    part of the sources at hand; each is a function from the version,
    the forwarded arguments, the buffer and the offset to the end
    offset and the node. *)
Variable decode_struct :
  struct_ref -> game_version_t -> gmap string value -> bytes -> nat ->
  result decode_error (nat * ParsedNode).

Variable game_version : game_version_t.
Variable data : bytes.

(** Modelled from the spec: "resolve element count from a literal or
    by sibling-name lookup (fails with MissingLengthReference if the
    name is absent from the accumulated sibling-value mapping)". *)
Definition resolve_count (siblings : gmap string value) (l : length_t)
  : result decode_error nat :=
  match l with
  | LenInt n => Ok n
  | LenName name =>
      match siblings !! name with
      | None => Raise (MissingLengthReference name)
      | Some (VInt z) => if (0 <=? z)%Z then Ok (Z.to_nat z) else Raise MalformedDescriptor
      | Some _ => Raise MalformedDescriptor
      end
  end.

(** Modelled from the spec: the "set of extra named values forwarded
    into each child's decode context"; each name is looked up among the
    siblings like a length. *)
Fixpoint forward_args (siblings : gmap string value) (names : list string)
  : result decode_error (gmap string value) :=
  match names with
  | [] => Ok ∅
  | n :: rest =>
      match siblings !! n with
      | None => Raise (MissingLengthReference n)
      | Some v => args ← forward_args siblings rest; Ok (<[n := v]> args)
      end
  end.

(** Modelled from the spec: the presence gate is a previously read
    array of the siblings. *)
Definition resolve_gate (siblings : gmap string value) (gate : option string)
  : result decode_error (option (list Z)) :=
  match gate with
  | None => Ok None
  | Some name =>
      match siblings !! name with
      | None => Raise (MissingLengthReference name)
      | Some (VArray zs) => Ok (Some zs)
      | Some _ => Raise MalformedDescriptor
      end
  end.

(** Modelled from the spec: "for each index, if a presenceGate is set
    and the corresponding gate entry is zero, emit an absent
    placeholder and do not advance the cursor for that element;
    otherwise recurse on the element schema with forwardedArgs merged
    into a fresh per-element context, and append the returned node". *)
Fixpoint decode_elements (ref : struct_ref) (args : gmap string value)
    (gate : option (list Z)) (count index offset : nat)
  : result decode_error (nat * list (option ParsedNode)) :=
  match count with
  | O => Ok (offset, [])
  | S count' =>
      absent ← match gate with
               | None => Ok false
               | Some zs =>
                   match nth_error zs index with
                   | Some z => Ok (z =? 0)%Z
                   | None => Raise MalformedDescriptor
                   end
               end;
      if (absent : bool) then
        '(offset', rest) ← decode_elements ref args gate count' (S index) offset;
        Ok (offset', None :: rest)
      else
        '(offset1, node) ← decode_struct ref game_version args data offset;
        '(offset2, rest) ← decode_elements ref args gate count' (S index) offset1;
        Ok (offset2, Some node :: rest)
  end.

(** Modelled from the spec (section 4.2): decoding one descriptor at
    the current offset, by storage kind. *)
Definition decode_field (forwarded siblings : gmap string value)
    (d : member) (offset : nat) : result decode_error (nat * value) :=
  match member_storage d, member_type d with
  | (INT_MEMBER | FLOAT_MEMBER | ID_MEMBER), TypeStr ty =>
      match prim_width ty with
      | None => Raise MalformedDescriptor
      | Some w =>
          raw ← consume data offset w;
          Ok ((offset + w)%nat, prim_value ty raw)
      end
  | STRING_MEMBER, TypeStr ty =>
      match array_length ty, prim_width (element_type ty) with
      | Some l, Some w =>
          count ← resolve_count siblings l;
          raw ← consume data offset (count * w);
          Ok ((offset + count * w)%nat, VText (until_nul raw))
      | _, _ => Raise MalformedDescriptor
      end
  | (ARRAY_INT | ARRAY_ID), TypeStr ty =>
      match array_length ty, prim_width (element_type ty) with
      | Some l, Some w =>
          count ← resolve_count siblings l;
          raw ← consume data offset (count * w);
          Ok ((offset + count * w)%nat,
              VArray (map (prim_int (element_type ty)) (chunks w count raw)))
      | _, _ => Raise MalformedDescriptor
      end
  | ARRAY_CONTAINER, Subdata sm =>
      count ← resolve_count siblings (length_src sm);
      args ← forward_args siblings (elements (passed_args sm));
      gate ← resolve_gate siblings (option_map fst (offset_to sm));
      '(offset', nodes) ← decode_elements (ref_type sm) (args ∪ forwarded) gate count 0 offset;
      Ok (offset', VNodes nodes)
  | _, _ => Raise MalformedDescriptor
  end.

(** Modelled from the spec: Store and StoreExported fields are
    "inserted into sibling-value mapping and written into the output
    tree"; Discard and Skip fields are consumed and dropped. *)
Definition retain (d : member) (v : value)
    (siblings : gmap string value) (out : list (string * bool * value))
  : gmap string value * list (string * bool * value) :=
  match member_name d, member_access d with
  | Some n, READ => (<[n := v]> siblings, out ++ [(n, false, v)])
  | Some n, READ_EXPORT => (<[n := v]> siblings, out ++ [(n, true, v)])
  | _, _ => (siblings, out)
  end.

(** Modelled from the spec: descriptors are processed "strictly in
    list order". *)
Fixpoint decode_members (forwarded : gmap string value) (ds : list member)
    (offset : nat) (siblings : gmap string value)
    (out : list (string * bool * value))
  : result decode_error (nat * gmap string value * list (string * bool * value)) :=
  match ds with
  | [] => Ok (offset, siblings, out)
  | d :: rest =>
      '(offset', v) ← decode_field forwarded siblings d offset;
      let '(siblings', out') := retain d v siblings out in
      decode_members forwarded rest offset' siblings' out'
  end.

(** Modelled from the spec:
    [decode(bytes, startOffset, descriptorList, context) -> (endOffset, ParsedNode)];
    the sibling values are dropped when the structure is done. *)
Definition decode (structure : struct_ref) (ds : list member)
    (forwarded : gmap string value) (offset : nat)
  : result decode_error (nat * ParsedNode) :=
  '(offset', _, fields) ← decode_members forwarded ds offset ∅ [];
  Ok (offset', Node structure fields).

End Decoder.

(** ** The world of [load_gamespec] *)

(** The exceptions that the calls of [load_gamespec] can raise.
    [KeyboardInterrupt] derives from [BaseException] only; all others
    derive from [Exception]. *)
Inductive exn : Type :=
| FileNotFoundError
| PermissionError
| IsADirectoryError
| NotADirectoryError
| ValueError
| IndexError
| EOFError
| UnpicklingError
| PicklingError
| zlib_error
| DecodeFailure (e : decode_error)
| KeyboardInterrupt.

(** [except Exception] *)
Definition is_Exception (e : exn) : bool :=
  match e with
  | KeyboardInterrupt => false
  | _ => true
  end.

(** [except FileNotFoundError] *)
Definition is_FileNotFoundError (e : exn) : bool :=
  match e with
  | FileNotFoundError => true
  | _ => false
  end.

(** The binary file object handed to [load_gamespec]. *)
Record file_object : Type := mkFileObject {
  fo_data : bytes;
  fo_pos : nat;
  fo_closed : bool
}.

(** What a path names: a regular file with its permissions and content,
    or a directory, which may be searched (entered on the way to a file)
    and written (a file created in it) or not. *)
Inductive fnode : Type :=
| RegularFile (readable writable : bool) (content : bytes)
| Directory (searchable writable : bool).

Inductive level : Type := SPAM | DBG | INFO | WARN.

Inductive log_arg : Type :=
| ArgStr (s : string)
| ArgInt (n : nat).

Inductive callee : Type :=
| pickle_load_call
| fileobj_read_call
| fileobj_close_call
| decompress_call
| wrapper_read_call
| pickle_dump_call.

(** What a run leaves behind, in order: log lines, the printed
    traceback, files opened, and the calls made. *)
Inductive event : Type :=
| Logged (lvl : level) (fmt : string) (args : list log_arg)
| PrintedTraceback (e : exn)
| Opened (path : string) (mode : string)
| Called (c : callee).

Record world : Type := mkWorld {
  disk : gmap string fnode;
  fileobj : file_object;
  trace : list event
}.

(** A computation reads and updates the world and returns or raises. *)
Definition M (A : Type) : Type := world -> result exn A * world.

#[global] Instance M_ret : MRet M := fun _ a w => (Ok a, w).
#[global] Instance M_bind : MBind M :=
  fun _ _ f m w =>
    match m w with
    | (Ok a, w') => f a w'
    | (Raise e, w') => (Raise e, w')
    end.

(** A primitive step, given by what it does to the world. *)
Definition step {A} (f : world -> result exn A * world) : M A := f.

Definition raise {A} (e : exn) : M A := fun w => (Raise e, w).

Definition lift {A} (r : result exn A) : M A := fun w => (r, w).

Definition emit (ev : event) : M unit :=
  fun w => (Ok tt, mkWorld (disk w) (fileobj w) (trace w ++ [ev])).

(** [try: body except <class>: handler] *)
Definition try_except {A} (body : M A) (caught : exn -> bool)
    (handler : exn -> M A) : M A :=
  fun w =>
    match body w with
    | (Ok a, w') => (Ok a, w')
    | (Raise e, w') => if caught e then handler e w' else (Raise e, w')
    end.

Definition info (fmt : string) (args : list log_arg) : M unit :=
  emit (Logged INFO fmt args).
Definition warn (fmt : string) (args : list log_arg) : M unit :=
  emit (Logged WARN fmt args).
Definition dbg (fmt : string) (args : list log_arg) : M unit :=
  emit (Logged DBG fmt args).
Definition spam (fmt : string) (args : list log_arg) : M unit :=
  emit (Logged SPAM fmt args).
Definition print_exc (e : exn) : M unit := emit (PrintedTraceback e).

(** A call of a collaborator: it is recorded, then returns or raises. *)
Definition call {A} (c : callee) (r : result exn A) : M A :=
  emit (Called c);; lift r.

(** The part of a path before its last ["/"], if it has one. *)
Fixpoint before_last_slash (path : string) : option string :=
  match path with
  | EmptyString => None
  | String c rest =>
      match before_last_slash rest with
      | Some d => Some (String c d)
      | None => if Ascii.eqb c "/" then Some EmptyString else None
      end
  end.

(** The directory that holds a path: the working directory for a bare
    name, the root for a name directly under it. *)
Definition parent_dir (path : string) : string :=
  match before_last_slash path with
  | Some EmptyString => "/"
  | Some d => d
  | None => "."
  end.

(** What the disk has at a path.  The working directory and the root
    exist, searchable and writable, unless the disk says otherwise. *)
Definition node_at (d : gmap string fnode) (path : string) : option fnode :=
  match d !! path with
  | Some n => Some n
  | None =>
      if String.eqb path "." || String.eqb path "/"
      then Some (Directory true true)
      else None
  end.

(** Reaching a path through the directory that holds it, which is
    where [open] fails first: a missing directory is a
    [FileNotFoundError], a regular file in the place of the directory a
    [NotADirectoryError], a directory that may not be searched a
    [PermissionError].  Otherwise: whether a file may be created there. *)
Definition enter_parent (d : gmap string fnode) (path : string) : result exn bool :=
  match node_at d (parent_dir path) with
  | None => Raise FileNotFoundError
  | Some (RegularFile _ _ _) => Raise NotADirectoryError
  | Some (Directory searchable writable) =>
      if searchable then Ok writable else Raise PermissionError
  end.

(** What [open(path, "rb")] comes to on a disk: the content that the
    handle will yield, or the exception of [open]. *)
Definition open_rb_result (d : gmap string fnode) (path : string) : result exn bytes :=
  match enter_parent d path with
  | Raise e => Raise e
  | Ok _ =>
      match node_at d path with
      | None => Raise FileNotFoundError
      | Some (Directory _ _) => Raise IsADirectoryError
      | Some (RegularFile readable _ content) =>
          if readable then Ok content else Raise PermissionError
      end
  end.

(** What [open(path, "wb")] comes to: the disk with the file truncated,
    or created when its directory may be written, or the exception of
    [open]. *)
Definition open_wb_result (d : gmap string fnode) (path : string)
  : result exn (gmap string fnode) :=
  match enter_parent d path with
  | Raise e => Raise e
  | Ok may_create =>
      match node_at d path with
      | None =>
          if may_create then Ok (<[path := RegularFile true true []]> d)
          else Raise PermissionError
      | Some (Directory _ _) => Raise IsADirectoryError
      | Some (RegularFile readable writable _) =>
          if writable then Ok (<[path := RegularFile readable writable []]> d)
          else Raise PermissionError
      end
  end.

(** [open(path, "rb")] *)
Definition open_rb (path : string) : M bytes :=
  emit (Opened path "rb");;
  step (fun w => (open_rb_result (disk w) path, w)).

(** [open(path, "wb")] *)
Definition open_wb (path : string) : M unit :=
  emit (Opened path "wb");;
  step (fun w =>
    match open_wb_result (disk w) path with
    | Ok d => (Ok tt, mkWorld d (fileobj w) (trace w))
    | Raise e => (Raise e, w)
    end).

(** Writing through a handle opened with [open_wb]. *)
Definition write_file (path : string) (content : bytes) : M unit :=
  step (fun w =>
    match disk w !! path with
    | Some (RegularFile r wr old) =>
        (Ok tt, mkWorld (<[path := RegularFile r wr (old ++ content)]> (disk w))
                        (fileobj w) (trace w))
    | _ => (Ok tt, w)
    end).

(** [fileobj.read()]: the rest of the data; a closed file raises. *)
Definition fileobj_read : M bytes :=
  emit (Called fileobj_read_call);;
  step (fun w =>
    let f := fileobj w in
    if fo_closed f then (Raise ValueError, w)
    else (Ok (skipn (fo_pos f) (fo_data f)),
          mkWorld (disk w)
                  (mkFileObject (fo_data f) (Nat.max (fo_pos f) (List.length (fo_data f))) false)
                  (trace w))).

(** [fileobj.close()] *)
Definition fileobj_close : M unit :=
  emit (Called fileobj_close_call);;
  step (fun w =>
    let f := fileobj w in
    (Ok tt, mkWorld (disk w) (mkFileObject (fo_data f) (fo_pos f) true) (trace w))).

(** The functions [load_gamespec] calls and that live outside this
    module: [zlib.decompress], [EmpiresDatWrapper().read] (inherited
    from [GenieStructure]), [pickle.load] and [pickle.dump]. *)
Class Collaborators (tree : Type) : Type := {
  decompress : bytes -> Z -> result exn bytes;
  wrapper_read : bytes -> nat -> game_version_t -> result exn (nat * list tree);
  pickle_load : bytes -> result exn tree;
  pickle_dump : tree -> result exn bytes
}.

(** The truth value of [cachefile_name]: [None] and the empty string
    are false. *)
Definition truthy (cachefile_name : option string) : option string :=
  match cachefile_name with
  | Some name => if String.eqb name "" then None else Some name
  | None => None
  end.

(** [gamespec[0]] *)
Definition index0 {A} (l : list A) : M A :=
  match l with
  | x :: _ => mret x
  | [] => raise IndexError
  end.

(** The first part of [load_gamespec]: [Some wrapper] stands for the
    early [return wrapper], [None] for falling through to the decode. *)
Definition try_cache `{Collaborators tree} (cachefile_name : option string)
    (load_cache : bool) : M (option tree) :=
  match truthy cachefile_name with
  | Some name =>
      if load_cache then
        try_except
          (cachefile ← open_rb name;
           try_except
             (wrapper ← call pickle_load_call (pickle_load cachefile);
              info "using cached wrapper: %s" [ArgStr name];;
              mret (Some wrapper))
             is_Exception
             (fun e =>
                warn "could not use cached wrapper:" [];;
                print_exc e;;
                warn "we will just skip the cache, no worries." [];;
                mret None))
          is_FileNotFoundError
          (fun _ => mret None)
      else mret None
  | None => mret None
  end.

(** The second part: read, decompress, decode, unwrap. *)
Definition read_dat `{Collaborators tree} (game_version : game_version_t) : M tree :=
  dbg "reading dat file" [];;
  compressed_data ← fileobj_read;
  fileobj_close;;
  dbg "decompressing dat file" [];;
  file_data ← call decompress_call (decompress compressed_data (-15));
  spam "length of decompressed data: %d" [ArgInt (List.length file_data)];;
  '(_, gamespec) ← call wrapper_read_call (wrapper_read file_data 0 game_version);
  index0 gamespec.

(** The third part: dump the tree to the cache file. *)
Definition store_cache `{Collaborators tree} (cachefile_name : option string)
    (gamespec : tree) : M unit :=
  match truthy cachefile_name with
  | Some name =>
      dbg "dumping dat file contents to cache file: %s" [ArgStr name];;
      open_wb name;;
      pickled ← call pickle_dump_call (pickle_dump gamespec);
      write_file name pickled
  | None => mret tt
  end.

(** [load_gamespec(fileobj, game_version, cachefile_name=None, load_cache=False)];
    [fileobj] is the file object of the world. *)
Definition load_gamespec `{Collaborators tree} (game_version : game_version_t)
    (cachefile_name : option string) (load_cache : bool) : M tree :=
  cached ← try_cache cachefile_name load_cache;
  match cached with
  | Some wrapper => mret wrapper
  | None =>
      gamespec ← read_dat game_version;
      store_cache cachefile_name gamespec;;
      mret gamespec
  end.

(** ** A concrete environment *)

(** One instance of the collaborators, small enough to run: the
    decompressor understands the stored blocks of raw DEFLATE (RFC 1951,
    section 3.2.4), the decoder returns the payload it is given as the
    tree, and a pickle is the byte [0x80] followed by the tree. *)
Module Sample.

Definition tree : Type := bytes.

Definition le16 (b0 b1 : Byte.byte) : N :=
  (Byte.to_N b0 + 256 * Byte.to_N b1)%N.

(** A stream of stored blocks: a header byte whose bit 0 marks the last
    block and whose bits 1-2 are the block type 00, LEN and its one's
    complement NLEN, then LEN literal bytes.  Any other stream is
    rejected here; block types 01 and 10 are outside this instance. *)
Fixpoint inflate_stored (fuel : nat) (stream : bytes) : result exn bytes :=
  match fuel with
  | O => Raise zlib_error
  | S fuel' =>
      match stream with
      | hdr :: l0 :: l1 :: n0 :: n1 :: rest =>
          let h := Byte.to_N hdr in
          let len := N.to_nat (le16 l0 l1) in
          if (N.eqb ((h / 2) mod 4) 0
              && N.eqb (le16 l0 l1 + le16 n0 n1) 65535
              && (len <=? List.length rest)%nat)%bool
          then
            if N.eqb (h mod 2) 1 then Ok (firstn len rest)
            else
              more ← inflate_stored fuel' (skipn len rest);
              Ok (firstn len rest ++ more)
          else Raise zlib_error
      | _ => Raise zlib_error
      end
  end.

#[global] Instance collaborators : Collaborators tree := {|
  decompress := fun stream wbits =>
    if (wbits =? -15)%Z then inflate_stored (List.length stream) stream
    else Raise zlib_error;
  wrapper_read := fun file_data offset _ =>
    Ok (List.length file_data, [skipn offset file_data]);
  pickle_load := fun cachefile =>
    match cachefile with
    | Byte.x80 :: t => Ok t
    | [] => Raise EOFError
    | _ => Raise UnpicklingError
    end;
  pickle_dump := fun t => Ok (Byte.x80 :: t)
|}.

(** ["VER 5.7"] and a NUL: the eight bytes of a version string. *)
Definition dat_payload : bytes :=
  [Byte.x56; Byte.x45; Byte.x52; Byte.x20; Byte.x35; Byte.x2e; Byte.x37; Byte.x00].

(** The payload as one final stored block. *)
Definition dat_stream : bytes :=
  [Byte.x01; Byte.x08; Byte.x00; Byte.xf7; Byte.xff] ++ dat_payload.

(** ["VER 5.8"] and a NUL: the tree of some earlier run. *)
Definition older_tree : tree :=
  [Byte.x56; Byte.x45; Byte.x52; Byte.x20; Byte.x35; Byte.x2e; Byte.x38; Byte.x00].

Definition cache_path : string := "gamedata.cache".

Definition game_version : game_version_t := (AOC, []).

(** A freshly opened file object over the stream, and a given disk. *)
Definition world_with (d : gmap string fnode) : world :=
  mkWorld d (mkFileObject dat_stream 0 false) [].

(** No cache file. *)
Definition disk_empty : gmap string fnode := ∅.

(** A cache file holding the pickle of [older_tree]. *)
Definition disk_valid_cache : gmap string fnode :=
  {[ cache_path := RegularFile true true (Byte.x80 :: older_tree) ]}.

(** A cache file whose content is not a pickle. *)
Definition disk_corrupt_cache : gmap string fnode :=
  {[ cache_path := RegularFile true true [Byte.x00; Byte.x01] ]}.



(** The cache path names a directory. *)
Definition disk_cache_is_directory : gmap string fnode :=
  {[ cache_path := Directory true true ]}.

(** A cache path in a directory that does not exist. *)
Definition cache_path_nowhere : string := "no_such_dir/gamedata.cache".

(** The working directory may be searched but not written, and has no
    cache file. *)
Definition disk_readonly_directory : gmap string fnode :=
  {[ "." := Directory true false ]}.

(** The cache path lies under a regular file. *)
Definition cache_path_under_file : string := "notes.txt/gamedata.cache".
Definition disk_file_as_directory : gmap string fnode :=
  {[ "notes.txt" := RegularFile true true [] ]}.

(** A stand-in for the decoders of the nested structures: a structure
    of no fields, which consumes nothing. *)
Definition decode_struct (ref : struct_ref) (_ : game_version_t)
    (_ : gmap string value) (_ : bytes) (offset : nat)
  : result decode_error (nat * ParsedNode) :=
  Ok (offset, Node ref []).

(** Another stand-in: a structure of one [uint8_t] field. *)
Definition decode_byte_struct (ref : struct_ref) (_ : game_version_t)
    (_ : gmap string value) (data : bytes) (offset : nat)
  : result decode_error (nat * ParsedNode) :=
  raw ← consume data offset 1;
  Ok ((offset + 1)%nat, Node ref [("value", false, VInt (le_unsigned raw))]).

(** The example schema of the spec (section 8): a count and an array of
    that many elements; and the same array behind a gate. *)
Definition counted_schema : list member :=
  [(READ, Some "countField", INT_MEMBER, TypeStr "uint16_t");
   (READ, Some "elements", ARRAY_CONTAINER, Subdata
      (mkSubdataMember terrain_TileSize (LenName "countField") ∅ None))].

Definition gated_schema : list member :=
  [(READ, Some "countField", INT_MEMBER, TypeStr "uint16_t");
   (READ, Some "ptrs", ARRAY_ID, TypeStr "uint32_t[countField]");
   (READ, Some "elements", ARRAY_CONTAINER, Subdata
      (mkSubdataMember terrain_TileSize (LenName "countField") ∅
         (Some ("ptrs", fun o => (0 <? o)%Z))))].

(** The start of an [AOC] file with no terrain restrictions, player
    colors or sounds, and two graphics of which the second is absent:
    the version string, the counts, and the two entries of
    ["graphic_ptrs"]. *)
Definition dat_header : bytes :=
  dat_payload
    ++ [Byte.x00; Byte.x00]   (* terrain_restriction_count *)
    ++ [Byte.x00; Byte.x00]   (* terrain_count *)
    ++ [Byte.x00; Byte.x00]   (* player_color_count *)
    ++ [Byte.x00; Byte.x00]   (* sound_count *)
    ++ [Byte.x02; Byte.x00]   (* graphic_count *)
    ++ [Byte.x01; Byte.x00; Byte.x00; Byte.x00;
        Byte.x00; Byte.x00; Byte.x00; Byte.x00].   (* graphic_ptrs *)

End Sample.


(** ** What a caller of the schema builder sees *)

(** The body of [EmpiresDat.get_data_format_members] has no [raise] and
    every operation in it is total: a call returns its list. *)
Definition schema_builder (game_version : game_version_t)
  : result decode_error (list member) :=
  Ok (EmpiresDat.get_data_format_members game_version).

(** The layout that an edition without a branch of its own ends up
    with: the member list of [AOC], with the length of ["terrains"]
    replaced by the 32 of the final [else]. *)
Definition fallthrough_layout (game_version : game_version_t) : list member :=
  map (with_terrains_length 32)
      (EmpiresDat.get_data_format_members (AOC, snd game_version)).

(** The three members of the search-map block, by edition. *)
Definition frame_change_block (ed : GameEdition) : list member :=
  match ed with
  | ROR | AOE1DE =>
      [(SKIP, Some "any_frame_change", INT_MEMBER, TypeStr "int32_t");
       (SKIP, Some "search_map_ptr", INT_MEMBER, TypeStr "int32_t");
       (SKIP, Some "search_map_rows_ptr", INT_MEMBER, TypeStr "int32_t")]
  | _ =>
      [(SKIP, Some "search_map_ptr", INT_MEMBER, TypeStr "int32_t");
       (SKIP, Some "search_map_rows_ptr", INT_MEMBER, TypeStr "int32_t");
       (SKIP, Some "any_frame_change", INT_MEMBER, TypeStr "int8_t")]
  end.

Definition in_frame_change_block (m : member) : bool :=
  has_name "any_frame_change" m
  || has_name "search_map_ptr" m
  || has_name "search_map_rows_ptr" m.

Definition is_gated (m : member) : bool :=
  match member_gate m with
  | Some _ => true
  | None => false
  end.

Definition graphic_count_member : member :=
  (READ, Some "graphic_count", INT_MEMBER, TypeStr "uint16_t").

Definition graphic_ptrs_member : member :=
  (READ, Some "graphic_ptrs", ARRAY_ID, TypeStr "uint32_t[graphic_count]").

Definition graphics_member : member :=
  (READ_EXPORT, Some "graphics", ARRAY_CONTAINER, Subdata
     (mkSubdataMember graphic_Graphic (LenName "graphic_count") ∅
        (Some ("graphic_ptrs", fun o => (0 <? o)%Z)))).

(** ** Summaries of [load_gamespec] *)

(** What the decode part computes from the file object: the first
    element of what [wrapper.read] returns for the decompressed rest of
    the file. *)
Definition decoded `{Collaborators tree} (f : file_object)
    (game_version : game_version_t) : result exn tree :=
  if fo_closed f then Raise ValueError
  else
    file_data ← decompress (skipn (fo_pos f) (fo_data f)) (-15);
    '(_, gamespec) ← wrapper_read file_data 0 game_version;
    match gamespec with
    | x :: _ => Ok x
    | [] => Raise IndexError
    end.

(** The reading of the interface section of the spec: the bytes handed
    over are the decompressed payload, and the tree is their decode. *)
Definition decoded_as_given `{Collaborators tree} (f : file_object)
    (game_version : game_version_t) : result exn tree :=
  if fo_closed f then Raise ValueError
  else
    '(_, gamespec) ← wrapper_read (skipn (fo_pos f) (fo_data f)) 0 game_version;
    match gamespec with
    | x :: _ => Ok x
    | [] => Raise IndexError
    end.

(** The cache file cannot be used: opening it raises
    [FileNotFoundError], or it opens and unpickling its content raises
    an [Exception]. *)
Definition cache_load_fails `{Collaborators tree} (w : world) (name : string) : Prop :=
  open_rb_result (disk w) name = Raise FileNotFoundError
  \/ exists content e,
       open_rb_result (disk w) name = Ok content
       /\ pickle_load content = Raise e
       /\ is_Exception e = true.

(** The cache file opens and holds a tree that can be loaded. *)
Definition cache_holds `{Collaborators tree} (w : world) (name : string) (t : tree) : Prop :=
  exists content,
    open_rb_result (disk w) name = Ok content
    /\ pickle_load content = Ok t.

(** What the store step comes to on a given disk: the pickle that ends
    up in the file when both [open(name, "wb")] and [pickle.dump]
    succeed, or else the exception of the first of them that raises. *)
Definition store_result `{Collaborators tree} (w : world) (name : string) (t : tree)
  : result exn bytes :=
  match open_wb_result (disk w) name with
  | Ok _ => pickle_dump t
  | Raise e => Raise e
  end.

(** The call finds no tree in the cache: no usable cache file name is
    given, or [load_cache] is not set, or the cache file cannot be used. *)
Definition no_cache_hit `{Collaborators tree} (w : world)
    (cachefile_name : option string) (load_cache : bool) : Prop :=
  match truthy cachefile_name with
  | None => True
  | Some name => load_cache = false \/ cache_load_fails w name
  end.

(** What a call comes to after a miss: the decode, then the store step
    when a cache file name is given. *)
Definition miss_result `{Collaborators tree} (w : world)
    (game_version : game_version_t) (cachefile_name : option string)
  : result exn tree :=
  match decoded (fileobj w) game_version with
  | Ok t =>
      match truthy cachefile_name with
      | Some name =>
          match store_result w name t with
          | Ok _ => Ok t
          | Raise e => Raise e
          end
      | None => Ok t
      end
  | Raise e => Raise e
  end.

(** The events that a run has added to the trace it started with. *)
Definition new_events (before after : world) : list event :=
  skipn (List.length (trace before)) (trace after).

(** The events of the cache step never include a decode. *)
Definition cache_events_only (evs : list event) : Prop :=
  ~ In (Called wrapper_read_call) evs /\ ~ In (Called decompress_call) evs.

(** The events with which the decode part starts on an open file. *)
Definition read_and_inflate : list event :=
  [Called fileobj_read_call; Called fileobj_close_call;
   Logged DBG "decompressing dat file" []; Called decompress_call].

(** The content of a regular file. *)
Definition file_content (d : gmap string fnode) (name : string) : option bytes :=
  match d !! name with
  | Some (RegularFile _ _ content) => Some content
  | _ => None
  end.

(** ** Outcomes of the decoder *)

(** A result that is the failure of a sibling-name lookup. *)
Definition raises_missing {A} (r : result decode_error A) : Prop :=
  exists name, r = Raise (MissingLengthReference name).

(** The gate array and the count it was read with: what the decoder
    resolves for ["graphics"] from the siblings. *)
Definition gate_aligned (siblings : gmap string value) : Prop :=
  exists count zs,
    resolve_count siblings (LenName "graphic_count") = Ok count
    /\ resolve_gate siblings (Some "graphic_ptrs") = Ok (Some zs)
    /\ List.length zs = count.

(** ** The code compliance checker: [buildsystem/codecompliance/__main__.py] *)

Module codecompliance.

(** The argument namespace that [cli.parse_args()] returns: one
    attribute per option.  [--only-changed-files] holds [None] or the
    git reference, [-v] and [-q] count their occurrences. *)
Record Namespace : Type := mkNamespace {
  fast : bool;
  merge : bool;
  all : bool;
  only_changed_files : option string;
  authors : bool;
  clang_tidy : bool;
  cppstyle : bool;
  cython : bool;
  headerguards : bool;
  legal : bool;
  filemodes : bool;
  pylint : bool;
  pystyle : bool;
  textfiles : bool;
  test_git_change_years : bool;
  fix_ : bool;
  verbose : Z;
  quiet : Z
}.

(** The attributes that [process_args] assigns. *)
Inductive check : Type :=
| Authors
| ClangTidy
| Cppstyle
| Cython
| Headerguards
| Legal
| Filemodes
| Pylint
| Pystyle
| Textfiles
| TestGitChangeYears.

Definition check_eqb (a b : check) : bool :=
  match a, b with
  | Authors, Authors | ClangTidy, ClangTidy | Cppstyle, Cppstyle
  | Cython, Cython | Headerguards, Headerguards | Legal, Legal
  | Filemodes, Filemodes | Pylint, Pylint | Pystyle, Pystyle
  | Textfiles, Textfiles | TestGitChangeYears, TestGitChangeYears => true
  | _, _ => false
  end.

(** [args.<c>] *)
Definition enabled (c : check) (args : Namespace) : bool :=
  match c with
  | Authors => authors args
  | ClangTidy => clang_tidy args
  | Cppstyle => cppstyle args
  | Cython => cython args
  | Headerguards => headerguards args
  | Legal => legal args
  | Filemodes => filemodes args
  | Pylint => pylint args
  | Pystyle => pystyle args
  | Textfiles => textfiles args
  | TestGitChangeYears => test_git_change_years args
  end.

(** [args.<c> = b] *)
Definition assign (c : check) (b : bool) (args : Namespace) : Namespace :=
  let v (d : check) (old : bool) := if check_eqb c d then b else old in
  {| fast := fast args;
     merge := merge args;
     all := all args;
     only_changed_files := only_changed_files args;
     authors := v Authors (authors args);
     clang_tidy := v ClangTidy (clang_tidy args);
     cppstyle := v Cppstyle (cppstyle args);
     cython := v Cython (cython args);
     headerguards := v Headerguards (headerguards args);
     legal := v Legal (legal args);
     filemodes := v Filemodes (filemodes args);
     pylint := v Pylint (pylint args);
     pystyle := v Pystyle (pystyle args);
     textfiles := v Textfiles (textfiles args);
     test_git_change_years := v TestGitChangeYears (test_git_change_years args);
     fix_ := fix_ args;
     verbose := verbose args;
     quiet := quiet args |}.

(** The exceptions of this module. *)
Inductive pyexc : Type :=
| SystemExit (code : Z)
| RuntimeError (message : string)
| CalledProcessError
| UnicodeDecodeError
| OSError (name : string).

(** What a run shows: the log level it sets, the lines it prints, the
    messages it hands to [error]. *)
Inductive console : Type :=
| LogSetup (level : Z)
| Print (text : string)
| Error (message : string).

(** What the module asks of the machine: [shutil.which], [os.path.exists],
    [importlib.util.find_spec] (each as found or not found), and
    [subprocess.check_output]. *)
Record System : Type := mkSystem {
  which : string -> bool;
  path_exists : string -> bool;
  find_spec : string -> bool;
  check_output : list string -> result pyexc bytes
}.

(** The namespace is a mutable object: it is part of the state, next to
    the console. *)
Record state : Type := mkState {
  st_args : Namespace;
  st_console : list console
}.

Definition Cmd (A : Type) : Type := state -> result pyexc A * state.

#[global] Instance Cmd_ret : MRet Cmd := fun _ a s => (Ok a, s).
#[global] Instance Cmd_bind : MBind Cmd :=
  fun _ _ f m s =>
    match m s with
    | (Ok a, s') => f a s'
    | (Raise e, s') => (Raise e, s')
    end.

Definition get_args : Cmd Namespace := fun s => (Ok (st_args s), s).

Definition set_attr (c : check) (b : bool) : Cmd unit :=
  fun s => (Ok tt, mkState (assign c b (st_args s)) (st_console s)).

Definition show (ev : console) : Cmd unit :=
  fun s => (Ok tt, mkState (st_args s) (st_console s ++ [ev])).

Definition print (text : string) : Cmd unit := show (Print text).

Definition log_setup (level : Z) : Cmd unit := show (LogSetup level).

Definition throw {A} (e : pyexc) : Cmd A := fun s => (Raise e, s).

Definition lift_result {A} (r : result pyexc A) : Cmd A := fun s => (r, s).

(** [if cond(args): body] *)
Definition when_args (cond : Namespace -> bool) (body : Cmd unit) : Cmd unit :=
  args ← get_args;
  if cond args then body else mret tt.

(** [cli.error]: the message goes to the console and the process exits
    with status 2. *)
Definition cli_error (message : string) : Cmd unit :=
  show (Error message);; throw (SystemExit 2).

(** The truth value of [args.only_changed_files]. *)
Definition gitref (args : Namespace) : option string :=
  match only_changed_files args with
  | Some ref => if String.eqb ref "" then None else Some ref
  | None => None
  end.

Definition any_check (args : Namespace) : bool :=
  headerguards args || legal args || authors args || pystyle args
  || cppstyle args || cython args || test_git_change_years args
  || pylint args || filemodes args || textfiles args || clang_tidy args.

(** [process_args(args, error)]; [args] is the namespace of the state. *)
Definition process_args (sys : System) (error : string -> Cmd unit) : Cmd unit :=
  (* set up log level *)
  args ← get_args;
  log_setup (verbose args - quiet args);;

  when_args (fun args => fast args || merge args || all args)
    ((* enable "fast" tests *)
     set_attr Authors true;;
     set_attr Cppstyle true;;
     set_attr Cython true;;
     set_attr Headerguards true;;
     set_attr Legal true;;
     set_attr Filemodes true;;
     set_attr Textfiles true);;

  when_args (fun args => merge args || all args)
    ((* enable tests that are required before merging to master *)
     set_attr Pystyle true;;
     set_attr Pylint true;;
     set_attr TestGitChangeYears true);;

  when_args (fun args => all args)
    ((* enable tests that take a bit longer *)
     set_attr ClangTidy true);;

  when_args (fun args => negb (any_check args))
    (error "no checks were specified");;

  let has_git := which sys "git" in
  let is_git_repo := path_exists sys ".git" in

  when_args (fun args =>
               match gitref args with Some _ => true | None => false end
               && negb (has_git && is_git_repo))
    (error "can not check only changed files: git is required");;

  when_args (fun args => authors args)
    (if negb (has_git && is_git_repo) then
       (* non-fatal fail *)
       print "can not check author list for compliance: git is required";;
       set_attr Authors false
     else mret tt);;

  when_args (fun args => test_git_change_years args)
    (when_args (fun args => negb (legal args))
       (error "--test-git-change-years may only be passed with --legal");;
     if negb (has_git && is_git_repo) then
       error "--test-git-change-years requires git"
     else mret tt);;

  when_args (fun args => pystyle args)
    (if negb (find_spec sys "pep8") && negb (find_spec sys "pycodestyle") then
       error "pep8 or pycodestyle python module required for style checking"
     else mret tt);;

  when_args (fun args => pylint args)
    (if negb (find_spec sys "pylint") then
       error "pylint python module required for linting"
     else mret tt);;

  when_args (fun args => clang_tidy args)
    (if negb (which sys "clang-tidy") then
       error "--clang-tidy requires clang-tidy to be installed"
     else mret tt).


(** *** [get_changed_files] *)

(** [bytes.decode('ascii')]: a byte above 127 cannot be decoded. *)
Fixpoint decode_ascii (raw : bytes) : result pyexc string :=
  match raw with
  | [] => Ok EmptyString
  | b :: rest =>
      if (Byte.to_N b <? 128)%N then
        s ← decode_ascii rest;
        Ok (String (ascii_of_byte b) s)
      else Raise UnicodeDecodeError
  end.

(** The ASCII characters that [str.strip()] removes: tab to carriage
    return, the four separators 0x1c to 0x1f, and the space. *)
Definition is_space (a : ascii) : bool :=
  let n := nat_of_ascii a in
  ((9 <=? n) && (n <=? 13) || (28 <=? n) && (n <=? 32))%nat.

Fixpoint lstrip (s : string) : string :=
  match s with
  | EmptyString => EmptyString
  | String a rest => if is_space a then lstrip rest else s
  end.

Fixpoint rstrip (s : string) : string :=
  match s with
  | EmptyString => EmptyString
  | String a rest =>
      match rstrip rest with
      | EmptyString => if is_space a then EmptyString else String a EmptyString
      | kept => String a kept
      end
  end.

(** [s.strip()] *)
Definition strip (s : string) : string := rstrip (lstrip s).

(** [s.split(sep)] for a one-character separator: the pieces between
    the separators, of which there is always at least one. *)
Fixpoint split (sep : ascii) (s : string) : list string :=
  match s with
  | EmptyString => [EmptyString]
  | String a rest =>
      if Ascii.eqb a sep then EmptyString :: split sep rest
      else
        match split sep rest with
        | piece :: pieces => String a piece :: pieces
        | [] => [String a EmptyString]
        end
  end.

Definition newline : ascii := ascii_of_nat 10.

(** [get_changed_files(gitref)] *)
Definition get_changed_files (sys : System) (ref : string) : Cmd (gset string) :=
  let invocation :=
    ["git"; "diff"; "--name-only"; "--diff-filter=ACMRTUXB"; ref] in
  file_list ←
    (fun s =>
       match check_output sys invocation with
       | Ok out => (Ok out, s)
       | Raise CalledProcessError =>
           (Raise (RuntimeError
                     "could not determine list of recently-changed files with git"), s)
       | Raise e => (Raise e, s)
       end);
  text ← lift_result (decode_ascii file_list);
  mret (list_to_set (split newline (strip text))).

(** *** [find_all_issues] and [main] *)












End codecompliance.

(** ** Summaries of [process_args] *)

Module compliance_summary.
Import codecompliance.

(** The namespace after the three group options have been expanded. *)
Definition enable_groups (args : Namespace) : Namespace :=
  let args :=
    if fast args || merge args || all args then
      assign Textfiles true (assign Filemodes true (assign Legal true
        (assign Headerguards true (assign Cython true (assign Cppstyle true
          (assign Authors true args))))))
    else args in
  let args :=
    if merge args || all args then
      assign TestGitChangeYears true (assign Pylint true (assign Pystyle true args))
    else args in
  if all args then assign ClangTidy true args else args.

(** [all((has_git, is_git_repo))] *)
Definition git_available (sys : System) : bool :=
  which sys "git" && path_exists sys ".git".

Definition has_gitref (args : Namespace) : bool :=
  match gitref args with
  | Some _ => true
  | None => false
  end.

(** The message of the first requirement that is not met, in the order
    of the tests of [process_args]: those made before the author check
    is settled, and those made after. *)
Definition early_error (sys : System) (args : Namespace) : option string :=
  if negb (any_check args) then
    Some "no checks were specified"
  else if has_gitref args && negb (git_available sys) then
    Some "can not check only changed files: git is required"
  else None.

Definition late_error (sys : System) (args : Namespace) : option string :=
  if test_git_change_years args && negb (legal args) then
    Some "--test-git-change-years may only be passed with --legal"
  else if test_git_change_years args && negb (git_available sys) then
    Some "--test-git-change-years requires git"
  else if pystyle args && negb (find_spec sys "pep8")
          && negb (find_spec sys "pycodestyle") then
    Some "pep8 or pycodestyle python module required for style checking"
  else if pylint args && negb (find_spec sys "pylint") then
    Some "pylint python module required for linting"
  else if clang_tidy args && negb (which sys "clang-tidy") then
    Some "--clang-tidy requires clang-tidy to be installed"
  else None.

Definition first_error (sys : System) (args : Namespace) : option string :=
  match early_error sys args with
  | Some message => Some message
  | None => late_error sys args
  end.

(** The author check is dropped when git is not there. *)
Definition settle_authors (sys : System) (args : Namespace) : Namespace :=
  if authors args && negb (git_available sys) then assign Authors false args
  else args.

Definition authors_notice (sys : System) (args : Namespace) : list console :=
  if authors args && negb (git_available sys) then
    [Print "can not check author list for compliance: git is required"]
  else [].

(** The outcome of the tests of [process_args] with [cli.error], from
    a namespace whose groups are expanded: the exit with the first
    error, or the settled namespace. *)
Definition requirements_outcome (sys : System) (args1 : Namespace)
    (out1 : list console) : result pyexc unit * state :=
  match early_error sys args1 with
  | Some message =>
      (Raise (SystemExit 2), mkState args1 (out1 ++ [Error message]))
  | None =>
      match late_error sys args1 with
      | Some message =>
          (Raise (SystemExit 2),
           mkState (settle_authors sys args1)
                   ((out1 ++ authors_notice sys args1) ++ [Error message]))
      | None =>
          (Ok tt,
           mkState (settle_authors sys args1) (out1 ++ authors_notice sys args1))
      end
  end.

(** The outcome of [process_args] with [cli.error]. *)
Definition process_args_outcome (sys : System) (args : Namespace)
    (out : list console) : result pyexc unit * state :=
  requirements_outcome sys (enable_groups args)
    (out ++ [LogSetup (verbose args - quiet args)]).

(** What each check needs from the machine. *)
Definition requirement_met (sys : System) (args : Namespace) (c : check) : bool :=
  match c with
  | Authors => git_available sys
  | TestGitChangeYears => legal args && git_available sys
  | Pystyle => find_spec sys "pep8" || find_spec sys "pycodestyle"
  | Pylint => find_spec sys "pylint"
  | ClangTidy => which sys "clang-tidy"
  | _ => true
  end.

(** The checks switched on by [--fast], and those switched on by
    [--merge]. *)
Definition fast_checks : list check :=
  [Authors; Cppstyle; Cython; Headerguards; Legal; Filemodes; Textfiles].

Definition merge_checks : list check :=
  fast_checks ++ [Pystyle; Pylint; TestGitChangeYears].

(** Membership in a list of checks. *)
Definition in_checks (l : list check) (c : check) : bool := existsb (check_eqb c) l.


End compliance_summary.

(** ** Summaries of [get_changed_files] and [main] *)

Module main_summary.
Import codecompliance compliance_summary.

(** What [get_changed_files] returns or raises; it leaves the state
    alone. *)
Definition changed_files_of (sys : System) (ref : string) : result pyexc (gset string) :=
  match check_output sys
          ["git"; "diff"; "--name-only"; "--diff-filter=ACMRTUXB"; ref] with
  | Ok raw =>
      match decode_ascii raw with
      | Ok text => Ok (list_to_set (split newline (strip text)))
      | Raise e => Raise e
      end
  | Raise CalledProcessError =>
      Raise (RuntimeError
               "could not determine list of recently-changed files with git")
  | Raise e => Raise e
  end.





(** The bytes of an ASCII string, and a list of names as the output of
    [git diff --name-only]: one name per line. *)
Fixpoint encode_ascii (s : string) : bytes :=
  match s with
  | EmptyString => []
  | String a rest => byte_of_ascii a :: encode_ascii rest
  end.

Fixpoint unlines (names : list string) : string :=
  match names with
  | [] => EmptyString
  | name :: rest => name +:+ String newline (unlines rest)
  end.

Fixpoint is_ascii (s : string) : bool :=
  match s with
  | EmptyString => true
  | String a rest => (nat_of_ascii a <? 128)%nat && is_ascii rest
  end.

Fixpoint has_char (c : ascii) (s : string) : bool :=
  match s with
  | EmptyString => false
  | String a rest => Ascii.eqb a c || has_char c rest
  end.

(** The names joined by newlines, without the final newline. *)
Fixpoint join_lines (names : list string) : string :=
  match names with
  | [] => EmptyString
  | [name] => name
  | name :: rest => name +:+ String newline (join_lines rest)
  end.

(** A name that [strip] leaves alone at its start, at its end. *)
Definition clean_start (s : string) : bool :=
  match s with
  | EmptyString => false
  | String a _ => negb (is_space a)
  end.

Fixpoint clean_end (s : string) : bool :=
  match s with
  | EmptyString => false
  | String a EmptyString => negb (is_space a)
  | String _ rest => clean_end rest
  end.


End main_summary.

(** ** Concrete machines for the checker *)

Module compliance_sample.
Import codecompliance compliance_summary main_summary.

(** The namespace of a command line with at most one group option. *)
Definition group_options (with_fast with_merge with_all : bool) : Namespace :=
  {| fast := with_fast; merge := with_merge; all := with_all;
     only_changed_files := None;
     authors := false; clang_tidy := false; cppstyle := false; cython := false;
     headerguards := false; legal := false; filemodes := false; pylint := false;
     pystyle := false; textfiles := false; test_git_change_years := false;
     fix_ := false; verbose := 0; quiet := 0 |}.

Definition no_options : Namespace := group_options false false false.
Definition option_fast : Namespace := group_options true false false.
Definition option_merge : Namespace := group_options false true false.

(** What [git diff --name-only] prints on the full machine. *)
Definition changed_names : list string :=
  ["openage/log.py"; "libopenage/main.cpp"].

(** A machine with git, a repository, and every module and tool. *)
Definition full_machine : System :=
  {| which := fun _ => true;
     path_exists := fun _ => true;
     find_spec := fun _ => true;
     check_output := fun _ => Ok (encode_ascii (unlines changed_names)) |}.

(** A machine with nothing installed, on which every command fails. *)
Definition bare_machine : System :=
  {| which := fun _ => false;
     path_exists := fun _ => false;
     find_spec := fun _ => false;
     check_output := fun _ => Raise CalledProcessError |}.

(** A machine on which git prints nothing. *)
Definition quiet_machine : System :=
  {| which := fun _ => true;
     path_exists := fun _ => true;
     find_spec := fun _ => true;
     check_output := fun _ => Ok [] |}.

Definition start : state := mkState no_options [].

End compliance_sample.

(** * Properties of the schema builder *)

(** Case analysis on the edition of a version. *)
Ltac by_edition gv :=
  let xs := fresh "expansions" in
  let n := fresh "tag" in
  destruct gv as [[ | | | | | | n] xs].

Section SchemaBuilder.

Implicit Type game_version : game_version_t.

(** C1, as amended.  The schema builder has a fallthrough default: for
    a version whose edition is none of SWGB, AOE2DE, AOE1DE,
    HDEDITION, AOC, ROR it does not fail with [UnsupportedVersion] but
    returns a member list, namely the one of AOC with the length of
    ["terrains"] set to 32. *)
Theorem unknown_edition_falls_through game_version :
  edition_in (game_version_0 game_version) known_editions = false ->
  schema_builder game_version = Ok (fallthrough_layout game_version).
Proof.
  by_edition game_version; intros Hunknown; try discriminate Hunknown.
  vm_compute. reflexivity.
Qed.

(** C7.  The member list holds exactly one member named ["terrains"],
    a container array of [terrain.Terrain] whose literal length is 55
    for SWGB, 200 for AOE2DE, 96 for AOE1DE, 100 for HDEDITION, 42 for
    AOC and 32 otherwise. *)
Theorem terrains_length_by_edition game_version :
  List.filter (has_name "terrains")
    (EmpiresDat.get_data_format_members game_version)
  = [terrains_member (terrains_length (game_version_0 game_version))].
Proof. by_edition game_version; vm_compute; reflexivity. Qed.

(** C9.  In the member list of every version, no name that is present
    occurs twice. *)
Theorem member_names_unique game_version :
  NoDup (present_names (EmpiresDat.get_data_format_members game_version)).
Proof.
  apply (bool_decide_unpack _).
  by_edition game_version; vm_compute; exact I.
Qed.

(** C10.  The members ["any_frame_change"], ["search_map_ptr"] and
    ["search_map_rows_ptr"] are in the list of every version, all
    skipped; for ROR and AOE1DE ["any_frame_change"] is an [int32_t]
    and comes first, for every other edition it is an [int8_t] and
    comes last. *)
Theorem frame_change_block_by_edition game_version :
  List.filter in_frame_change_block
    (EmpiresDat.get_data_format_members game_version)
  = frame_change_block (game_version_0 game_version).
Proof. by_edition game_version; vm_compute; reflexivity. Qed.

End SchemaBuilder.

(** * Scoping of sibling names *)

Section Scoping.

Lemma name_in_In stored n : name_in stored n = true <-> In n stored.
Proof.
  unfold name_in. rewrite existsb_exists. split.
  - intros [x [Hx Heq]]. apply String.eqb_eq in Heq. now subst.
  - intros Hin. exists n. split; [assumption | apply String.eqb_refl].
Qed.

Lemma stored_after_inv d stored n :
  In n (stored_after d stored) ->
  In n stored \/ (member_name d = Some n /\ is_stored d = true).
Proof.
  unfold stored_after.
  destruct (member_name d) as [k|]; [|now left].
  destruct (is_stored d); [|now left].
  intros [Hk | Hin]; [right; now subst | now left].
Qed.

(** What the walk establishes, with the names known at its start. *)
Lemma scoped_from_sound ds :
  forall stored,
    scoped_from stored ds = true ->
    forall pre d post n,
      ds = pre ++ d :: post ->
      In n (referenced_names d) ->
      In n stored \/
      exists e, In e pre /\ member_name e = Some n /\ is_stored e = true.
Proof.
  induction ds as [|a ds IH]; intros stored Hs pre d post n Heq Hin.
  - destruct pre; discriminate.
  - cbn [scoped_from] in Hs. apply andb_true_iff in Hs as [Hhere Hrest].
    destruct pre as [|p pre].
    + injection Heq as -> _. left.
      apply name_in_In.
      rewrite forallb_forall in Hhere. now apply Hhere.
    + injection Heq as -> Hds.
      destruct (IH _ Hrest pre d post n Hds Hin) as [Hst | [e [He [Hn Hk]]]].
      * apply stored_after_inv in Hst as [Hst | [Hn Hk]]; [now left|].
        right. exists p. repeat split; [now left | assumption | assumption].
      * right. exists e. repeat split; [now right | assumption | assumption].
Qed.

Lemma scoped_well_scoped ds : scoped_from [] ds = true -> well_scoped ds.
Proof.
  intros Hs pre d post n Heq Hin.
  destruct (scoped_from_sound ds [] Hs pre d post n Heq Hin) as [[] | H].
  exact H.
Qed.

Lemma members_scoped game_version :
  scoped_from [] (EmpiresDat.get_data_format_members game_version) = true.
Proof. by_edition game_version; vm_compute; reflexivity. Qed.

End Scoping.

(** * The decoder never misses a length *)

Section DecoderScoping.

Variable decode_struct :
  struct_ref -> game_version_t -> gmap string value -> bytes -> nat ->
  result decode_error (nat * ParsedNode).
Variable game_version : game_version_t.
Variable data : bytes.

(** The nested decoders do not fail on a lookup of their own. *)
Hypothesis nested_found :
  forall ref gv args bs offset,
    ~ raises_missing (decode_struct ref gv args bs offset).

Lemma bind_not_missing {A B} (r : result decode_error A)
    (f : A -> result decode_error B) :
  ~ raises_missing r ->
  (forall a, r = Ok a -> ~ raises_missing (f a)) ->
  ~ raises_missing (r ≫= f).
Proof.
  intros Hr Hf. destruct r as [a|e]; cbn.
  - now apply Hf.
  - intros [n Hn]. apply Hr. exists n. congruence.
Qed.

Lemma ok_not_missing {A} (a : A) : ~ raises_missing (Ok a : result decode_error A).
Proof. intros [n Hn]. discriminate. Qed.

Lemma malformed_not_missing {A} :
  ~ raises_missing (Raise MalformedDescriptor : result decode_error A).
Proof. intros [n Hn]. discriminate. Qed.

Lemma consume_not_missing offset n : ~ raises_missing (consume data offset n).
Proof.
  unfold consume. destruct (_ <=? _)%nat; intros [k Hk]; discriminate.
Qed.

Lemma resolve_count_found (siblings : gmap string value) l :
  (forall n, In n (length_names l) -> is_Some (siblings !! n)) ->
  ~ raises_missing (resolve_count siblings l).
Proof.
  intros Hdom. destruct l as [k|name]; cbn.
  - apply ok_not_missing.
  - destruct (Hdom name) as [v Hv]; [now left|]. rewrite Hv.
    destruct v; try apply malformed_not_missing.
    destruct (0 <=? z)%Z; [apply ok_not_missing | apply malformed_not_missing].
Qed.

Lemma forward_args_found (siblings : gmap string value) names :
  (forall n, In n names -> is_Some (siblings !! n)) ->
  ~ raises_missing (forward_args siblings names).
Proof.
  induction names as [|n names IH]; intros Hdom; cbn.
  - apply ok_not_missing.
  - destruct (Hdom n) as [v Hv]; [now left|]. rewrite Hv.
    apply bind_not_missing.
    + apply IH. intros k Hk. apply Hdom. now right.
    + intros a _. apply ok_not_missing.
Qed.

Lemma resolve_gate_found (siblings : gmap string value) gate :
  (forall n, gate = Some n -> is_Some (siblings !! n)) ->
  ~ raises_missing (resolve_gate siblings gate).
Proof.
  intros Hdom. destruct gate as [name|]; cbn.
  - destruct (Hdom name eq_refl) as [v Hv]. rewrite Hv.
    destruct v; try apply malformed_not_missing. apply ok_not_missing.
  - apply ok_not_missing.
Qed.

Lemma decode_elements_found ref args gate count :
  forall index offset,
    ~ raises_missing
        (decode_elements decode_struct game_version data ref args gate count index offset).
Proof.
  induction count as [|count IH]; intros index offset; cbn [decode_elements].
  - apply ok_not_missing.
  - apply bind_not_missing.
    + destruct gate as [zs|]; [|apply ok_not_missing].
      destruct (nth_error zs index);
        [apply ok_not_missing | apply malformed_not_missing].
    + intros [|] _.
      * apply bind_not_missing; [apply IH|].
        intros [o r] _. apply ok_not_missing.
      * apply bind_not_missing; [apply nested_found|].
        intros [o1 node] _.
        apply bind_not_missing; [apply IH|].
        intros [o2 r] _. apply ok_not_missing.
Qed.

Lemma array_field_found (siblings : gmap string value) ty offset
    (k : nat -> nat -> bytes -> value) :
  (forall n l, array_length ty = Some l -> In n (length_names l) ->
               is_Some (siblings !! n)) ->
  ~ raises_missing
      (match array_length ty, prim_width (element_type ty) with
       | Some l, Some w =>
           count ← resolve_count siblings l;
           raw ← consume data offset (count * w);
           Ok ((offset + count * w)%nat, k w count raw)
       | _, _ => Raise MalformedDescriptor
       end).
Proof.
  intros Hdom.
  destruct (array_length ty) as [l|]; [|apply malformed_not_missing].
  destruct (prim_width (element_type ty)) as [w|]; [|apply malformed_not_missing].
  apply bind_not_missing.
  - apply resolve_count_found. intros n Hn. now apply (Hdom n l).
  - intros count _. apply bind_not_missing; [apply consume_not_missing|].
    intros raw _. apply ok_not_missing.
Qed.

Lemma decode_field_found forwarded (siblings : gmap string value) d offset :
  (forall n, In n (referenced_names d) -> is_Some (siblings !! n)) ->
  ~ raises_missing
      (decode_field decode_struct game_version data forwarded siblings d offset).
Proof.
  destruct d as [[[access name] storage] [ty|sm]];
    unfold decode_field, referenced_names, member_storage, member_type;
    cbn [fst snd]; intros Hdom.
  - assert (Harr : forall n l, array_length ty = Some l ->
                               In n (length_names l) -> is_Some (siblings !! n)).
    { intros n l Hl Hn. apply Hdom. now rewrite Hl. }
    destruct storage;
      try (destruct (prim_width ty) as [w|];
           [ apply bind_not_missing;
             [apply consume_not_missing | intros raw _; apply ok_not_missing]
           | apply malformed_not_missing ]).
    + apply (array_field_found siblings ty offset (fun _ _ raw => VText (until_nul raw)) Harr).
    + apply (array_field_found siblings ty offset
               (fun w count raw => VArray (map (prim_int (element_type ty)) (chunks w count raw)))
               Harr).
    + apply (array_field_found siblings ty offset
               (fun w count raw => VArray (map (prim_int (element_type ty)) (chunks w count raw)))
               Harr).
    + apply malformed_not_missing.
  - destruct storage; try apply malformed_not_missing.
    apply bind_not_missing.
    { apply resolve_count_found. intros n Hn. apply Hdom.
      apply in_or_app. now left. }
    intros count _. apply bind_not_missing.
    { apply forward_args_found. intros n Hn. apply Hdom.
      apply in_or_app. right. apply in_or_app. now left. }
    intros args _. apply bind_not_missing.
    { apply resolve_gate_found. intros n Hn. apply Hdom.
      apply in_or_app. right. apply in_or_app. right.
      destruct (offset_to sm) as [[g p]|]; [|discriminate].
      injection Hn as <-. now left. }
    intros gate _. apply bind_not_missing.
    { apply decode_elements_found. }
    intros [o nodes] _. apply ok_not_missing.
Qed.

Lemma retain_keeps stored d v (siblings : gmap string value) out :
  (forall n, In n stored -> is_Some (siblings !! n)) ->
  forall n, In n (stored_after d stored) ->
            is_Some (fst (retain d v siblings out) !! n).
Proof.
  intros Hdom n Hn.
  unfold retain, stored_after, is_stored in *.
  destruct (member_name d) as [k|]; [|now apply Hdom].
  destruct (member_access d); cbn [fst] in *;
    try (now apply Hdom);
    (destruct (decide (k = n)) as [->|Hne];
     [ rewrite lookup_insert_eq; eauto
     | rewrite lookup_insert_ne by assumption;
       apply Hdom; destruct Hn as [Hk|Hn]; [congruence | assumption] ]).
Qed.

(** A member list that passes the walk is decoded without a failed
    lookup, from any siblings that hold the names known at its start. *)
Lemma decode_members_found forwarded ds :
  forall stored offset (siblings : gmap string value) out,
    scoped_from stored ds = true ->
    (forall n, In n stored -> is_Some (siblings !! n)) ->
    ~ raises_missing
        (decode_members decode_struct game_version data forwarded ds offset siblings out).
Proof.
  induction ds as [|d ds IH]; intros stored offset siblings out Hs Hdom;
    cbn [decode_members].
  - apply ok_not_missing.
  - cbn [scoped_from] in Hs. apply andb_true_iff in Hs as [Hhere Hrest].
    apply bind_not_missing.
    + apply decode_field_found. intros n Hn. apply Hdom.
      apply name_in_In. rewrite forallb_forall in Hhere. now apply Hhere.
    + intros [offset' v] _.
      pose proof (retain_keeps stored d v siblings out Hdom) as Hkeep.
      destruct (retain d v siblings out) as [siblings' out'].
      now apply (IH (stored_after d stored)).
Qed.

End DecoderScoping.

(** C6.  In the member list of every version, each sibling name that a
    member refers to (the length of an array given by name, a name in
    [passed_args], the name in [offset_to]) is the name of a [READ] or
    [READ_EXPORT] member strictly earlier in the list; so decoding the
    list never fails on a sibling-name lookup, as long as the decoders
    of the nested structures do not. *)
Theorem lengths_refer_to_earlier_members
    (decode_struct :
       struct_ref -> game_version_t -> gmap string value -> bytes -> nat ->
       result decode_error (nat * ParsedNode))
    (game_version : game_version_t) (data : bytes)
    (forwarded : gmap string value) (offset : nat) :
  (forall ref gv args bs o, ~ raises_missing (decode_struct ref gv args bs o)) ->
  well_scoped (EmpiresDat.get_data_format_members game_version)
  /\ ~ raises_missing
         (decode decode_struct game_version data EmpiresDat_ref
            (EmpiresDat.get_data_format_members game_version) forwarded offset).
Proof.
  intros Hnested. split.
  - apply scoped_well_scoped, members_scoped.
  - unfold decode. apply bind_not_missing.
    + apply (decode_members_found decode_struct game_version data Hnested
               forwarded _ []).
      * apply members_scoped.
      * intros n [].
    + intros [[o sib] fields] _. apply ok_not_missing.
Qed.

(** * Properties of [load_gamespec] *)

Section LoadGamespec.

Context {tree : Type} `{Collaborators tree}.
Implicit Type w : world.
Implicit Type game_version : game_version_t.

Lemma bind_run {A B} (m : M A) (f : A -> M B) w :
  (m ≫= f) w
  = match m w with
    | (Ok a, w') => f a w'
    | (Raise e, w') => (Raise e, w')
    end.
Proof. reflexivity. Qed.

Lemma try_cache_off cachefile_name w :
  try_cache cachefile_name false w = (Ok None, w).
Proof. unfold try_cache. destruct (truthy cachefile_name); reflexivity. Qed.

Lemma try_cache_none load_cache w :
  try_cache None load_cache w = (Ok None, w).
Proof. reflexivity. Qed.

Lemma truthy_some cachefile_name name :
  truthy cachefile_name = Some name -> cachefile_name = Some name.
Proof.
  destruct cachefile_name as [n|]; cbn; [|discriminate].
  destruct (String.eqb n ""); congruence.
Qed.

(** A failed load is a miss: nothing but the trace changes. *)
Lemma try_cache_miss name load_cache w :
  truthy (Some name) = Some name ->
  cache_load_fails w name ->
  exists evs,
    try_cache (Some name) load_cache w
    = (Ok None, mkWorld (disk w) (fileobj w) (trace w ++ evs))
    /\ cache_events_only evs.
Proof.
  intros Hname Hfail. destruct load_cache.
  - unfold try_cache. rewrite Hname.
    destruct w as [d f tr]. unfold cache_load_fails in Hfail. cbn [disk] in Hfail.
    destruct Hfail as [Hnone | (content & e & Hfile & Hload & Hexc)].
    + exists [Opened name "rb"]. split.
      * unfold try_except, open_rb, step, emit, mbind, M_bind, mret, M_ret;
          cbn -[open_rb_result].
        now rewrite Hnone.
      * split; intros [Hin|[]]; discriminate Hin.
    + exists [Opened name "rb"; Called pickle_load_call;
              Logged WARN "could not use cached wrapper:" [];
              PrintedTraceback e;
              Logged WARN "we will just skip the cache, no worries." []].
      split.
      * unfold try_except, open_rb, call, lift, info, warn, print_exc, step, emit,
          mbind, M_bind, mret, M_ret; cbn -[open_rb_result].
        rewrite Hfile; cbn -[open_rb_result]. rewrite Hload, Hexc; cbn.
        rewrite <- !app_assoc. reflexivity.
      * split; intros Hin;
          repeat (destruct Hin as [Hin|Hin]; [discriminate Hin|]); exact Hin.
  - exists []. rewrite try_cache_off, app_nil_r. split; [now destruct w|].
    split; intros [].
Qed.

(** Every way of not hitting the cache leaves the disk and the file
    object as they were. *)
Lemma try_cache_no_hit cachefile_name load_cache w :
  no_cache_hit w cachefile_name load_cache ->
  exists evs,
    try_cache cachefile_name load_cache w
    = (Ok None, mkWorld (disk w) (fileobj w) (trace w ++ evs))
    /\ cache_events_only evs.
Proof.
  unfold no_cache_hit. intros Hmiss.
  destruct (truthy cachefile_name) as [name|] eqn:Hname.
  - pose proof (truthy_some _ _ Hname) as ->.
    destruct Hmiss as [-> | Hfail].
    + exists []. rewrite try_cache_off, app_nil_r. split; [now destruct w|].
      split; intros [].
    + now apply try_cache_miss.
  - exists []. unfold try_cache. rewrite Hname, app_nil_r.
    split; [now destruct w|]. split; intros [].
Qed.

(** On a hit the tree comes back at once. *)
Lemma try_cache_hit name w t :
  truthy (Some name) = Some name ->
  cache_holds w name t ->
  try_cache (Some name) true w
  = (Ok (Some t),
     mkWorld (disk w) (fileobj w)
       (trace w ++ [Opened name "rb"; Called pickle_load_call;
                    Logged INFO "using cached wrapper: %s" [ArgStr name]])).
Proof.
  intros Hname (content & Hfile & Hload).
  unfold try_cache. rewrite Hname. destruct w as [d f tr]. cbn [disk] in Hfile.
  unfold try_except, open_rb, call, lift, info, step, emit,
    mbind, M_bind, mret, M_ret; cbn -[open_rb_result].
  rewrite Hfile; cbn. rewrite Hload; cbn.
  rewrite <- !app_assoc. reflexivity.
Qed.

(** The decode part returns [decoded], leaves the disk alone and the
    file object closed; on an open file it reads to the end, closes,
    and calls [decompress] before anything is decoded. *)
Lemma read_dat_run game_version w :
  fst (read_dat game_version w) = decoded (fileobj w) game_version
  /\ disk (snd (read_dat game_version w)) = disk w
  /\ fo_closed (fileobj (snd (read_dat game_version w))) = true
  /\ exists evs,
       trace (snd (read_dat game_version w)) = trace w ++ evs
       /\ (fo_closed (fileobj w) = true
           \/ fo_pos (fileobj (snd (read_dat game_version w)))
              = Nat.max (fo_pos (fileobj w)) (List.length (fo_data (fileobj w)))
              /\ exists after,
                   evs = Logged DBG "reading dat file" [] :: read_and_inflate ++ after).
Proof.
  destruct w as [d [fdata fpos fclosed] tr].
  unfold read_dat, decoded, fileobj_read, fileobj_close, call, lift, dbg, spam,
    index0, raise, step, emit, mbind, M_bind, mret, M_ret, read_and_inflate; cbn.
  destruct fclosed; cbn.
  { repeat split. eexists. split; [now rewrite <- !app_assoc | now left]. }
  destruct (decompress (skipn fpos fdata) (-15)) as [file_data|e]; cbn.
  2:{ repeat split. eexists. split; [now rewrite <- !app_assoc|].
      right. split; [reflexivity|]. now exists []. }
  destruct (wrapper_read file_data 0 game_version) as [[o gamespec]|e]; cbn.
  2:{ repeat split. eexists. split; [now rewrite <- !app_assoc|].
      right. split; [reflexivity|]. eexists. reflexivity. }
  destruct gamespec; cbn;
    (repeat split; eexists; split; [now rewrite <- !app_assoc|];
     right; split; [reflexivity|]; eexists; reflexivity).
Qed.

Lemma read_dat_decoded game_version w :
  fst (read_dat game_version w) = decoded (fileobj w) game_version
  /\ disk (snd (read_dat game_version w)) = disk w.
Proof.
  pose proof (read_dat_run game_version w) as (Hres & Hdisk & _). now split.
Qed.

(** A file opened for writing is there, and empty. *)
Lemma open_wb_result_file d d' name :
  open_wb_result d name = Ok d' ->
  exists r wr, d' !! name = Some (RegularFile r wr []).
Proof.
  unfold open_wb_result.
  destruct (enter_parent d name) as [may_create|e]; [|discriminate].
  destruct (node_at d name) as [[r wr content|x wr]|].
  - destruct wr; [|discriminate]. intros [= <-].
    exists r, true. apply lookup_insert_eq.
  - discriminate.
  - destruct may_create; [|discriminate]. intros [= <-].
    exists true, true. apply lookup_insert_eq.
Qed.

(** The store step, by what [open] and [pickle.dump] come to. *)
Lemma store_cache_result name t w :
  truthy (Some name) = Some name ->
  match store_result w name t with
  | Ok pickled =>
      fst (store_cache (Some name) t w) = Ok tt
      /\ file_content (disk (snd (store_cache (Some name) t w))) name = Some pickled
  | Raise e => fst (store_cache (Some name) t w) = Raise e
  end.
Proof.
  intros Hname. unfold store_cache, store_result. rewrite Hname.
  destruct w as [d f tr].
  unfold open_wb, write_file, call, lift, dbg, step, emit,
    mbind, M_bind, mret, M_ret, file_content; cbn -[open_wb_result].
  destruct (open_wb_result d name) as [d'|e] eqn:Hopen; cbn; [|reflexivity].
  destruct (pickle_dump t) as [pickled|e]; cbn; [|reflexivity].
  destruct (open_wb_result_file _ _ _ Hopen) as (r & wr & Hd').
  rewrite Hd'; cbn. rewrite lookup_insert_eq. now split.
Qed.

(** The store step leaves the file object alone and only adds events. *)
Lemma store_cache_frame cachefile_name t w :
  fileobj (snd (store_cache cachefile_name t w)) = fileobj w
  /\ exists evs, trace (snd (store_cache cachefile_name t w)) = trace w ++ evs.
Proof.
  unfold store_cache. destruct (truthy cachefile_name) as [name|].
  2:{ split; [reflexivity|]. exists []. cbn. now rewrite app_nil_r. }
  destruct w as [d f tr].
  unfold open_wb, write_file, call, lift, dbg, step, emit,
    mbind, M_bind, mret, M_ret; cbn -[open_wb_result].
  destruct (open_wb_result d name) as [d'|e]; cbn.
  2:{ split; [reflexivity|]. eexists. now rewrite <- !app_assoc. }
  destruct (pickle_dump t) as [pickled|e]; cbn.
  2:{ split; [reflexivity|]. eexists. now rewrite <- !app_assoc. }
  destruct (d' !! name) as [[r wr old|x wr]|]; cbn;
    (split; [reflexivity|]; eexists; now rewrite <- !app_assoc).
Qed.

Lemma load_gamespec_after_miss game_version cachefile_name load_cache w w1 :
  try_cache cachefile_name load_cache w = (Ok None, w1) ->
  load_gamespec game_version cachefile_name load_cache w
  = (gamespec ← read_dat game_version;
     store_cache cachefile_name gamespec;;
     mret gamespec) w1.
Proof.
  intros Hmiss. unfold load_gamespec.
  now rewrite bind_run, Hmiss.
Qed.

Lemma new_events_app w w' evs :
  trace w' = trace w ++ evs -> new_events w w' = evs.
Proof.
  intros Htrace. unfold new_events. rewrite Htrace.
  now rewrite skipn_app, skipn_all, Nat.sub_diag.
Qed.

(** A call that does not hit the cache, in full: its result, the file
    object, the events it adds, and the cache file it leaves. *)
Lemma load_gamespec_run game_version cachefile_name load_cache w :
  no_cache_hit w cachefile_name load_cache ->
  fst (load_gamespec game_version cachefile_name load_cache w)
  = miss_result w game_version cachefile_name
  /\ fo_closed (fileobj (snd (load_gamespec game_version cachefile_name load_cache w)))
     = true
  /\ (fo_closed (fileobj w) = true
      \/ fo_pos (fileobj (snd (load_gamespec game_version cachefile_name load_cache w)))
         = Nat.max (fo_pos (fileobj w)) (List.length (fo_data (fileobj w)))
         /\ exists before after,
              new_events w (snd (load_gamespec game_version cachefile_name load_cache w))
              = before ++ read_and_inflate ++ after
              /\ ~ In (Called wrapper_read_call) before
              /\ ~ In (Called decompress_call) before)
  /\ match truthy cachefile_name, decoded (fileobj w) game_version with
     | Some name, Ok t =>
         match store_result w name t with
         | Ok pickled =>
             file_content
               (disk (snd (load_gamespec game_version cachefile_name load_cache w)))
               name
             = Some pickled
         | Raise _ => True
         end
     | _, _ => True
     end.
Proof.
  intros Hno.
  destruct (try_cache_no_hit cachefile_name load_cache w Hno)
    as (evs0 & Hmiss & Hev0 & Hev0').
  rewrite (load_gamespec_after_miss _ _ _ _ _ Hmiss).
  set (w1 := mkWorld (disk w) (fileobj w) (trace w ++ evs0)).
  pose proof (read_dat_run game_version w1)
    as (Hres & Hdisk & Hclosed & evs1 & Htrace1 & Hopen).
  cbn [disk fileobj trace w1] in Hres, Hdisk, Htrace1, Hopen.
  unfold miss_result. rewrite bind_run.
  destruct (read_dat game_version w1) as [[t|e] w2]; cbn [fst snd] in *;
    rewrite <- Hres.
  2:{ split; [reflexivity|]. split; [exact Hclosed|]. split.
      - destruct Hopen as [Hc | (Hpos & after & ->)]; [now left | right].
        split; [exact Hpos|].
        exists (evs0 ++ [Logged DBG "reading dat file" []]), after. split.
        + apply new_events_app. rewrite Htrace1, <- !app_assoc. reflexivity.
        + split; rewrite in_app_iff; intros [Hin|[Hin|[]]];
            try discriminate Hin; tauto.
      - now destruct (truthy cachefile_name). }
  rewrite bind_run. unfold mret, M_ret.
  pose proof (store_cache_frame cachefile_name t w2) as (Hfo & evs2 & Htrace2).
  assert (Hresult :
    fst (match store_cache cachefile_name t w2 with
         | (Ok _, w') => (Ok t, w')
         | (Raise e, w') => (Raise e, w')
         end)
    = match truthy cachefile_name with
      | Some name =>
          match store_result w name t with
          | Ok _ => Ok t
          | Raise e => Raise e
          end
      | None => Ok t
      end
    /\ match truthy cachefile_name with
       | Some name =>
           match store_result w name t with
           | Ok pickled =>
               file_content (disk (snd (store_cache cachefile_name t w2))) name
               = Some pickled
           | Raise _ => True
           end
       | None => True
       end).
  { destruct (truthy cachefile_name) as [name|] eqn:Hname.
    - pose proof (truthy_some _ _ Hname) as ->.
      pose proof (store_cache_result name t w2 Hname) as Hstore.
      assert (Hsame : store_result w2 name t = store_result w name t)
        by (unfold store_result; now rewrite Hdisk).
      rewrite Hsame in Hstore.
      destruct (store_result w name t) as [pickled|e].
      + destruct Hstore as [Hok Hcontent].
        destruct (store_cache (Some name) t w2) as [[[]|e] w3]; cbn [fst snd] in *;
          [now split | discriminate].
      + destruct (store_cache (Some name) t w2) as [[[]|e'] w3]; cbn [fst snd] in *;
          [discriminate | split; [congruence | exact I]].
    - unfold store_cache. rewrite Hname. cbn. now split. }
  destruct Hresult as [Hfst Hfile].
  assert (Hsnd :
    snd (match store_cache cachefile_name t w2 with
         | (Ok _, w') => (Ok t, w')
         | (Raise e, w') => (Raise e, w')
         end)
    = snd (store_cache cachefile_name t w2))
    by (destruct (store_cache cachefile_name t w2) as [[[]|e] w3]; reflexivity).
  rewrite Hsnd, Hfo. split; [exact Hfst|]. split; [exact Hclosed|]. split.
  - destruct Hopen as [Hc | (Hpos & after & ->)]; [now left | right].
    split; [exact Hpos|].
    exists (evs0 ++ [Logged DBG "reading dat file" []]), (after ++ evs2). split.
    + apply new_events_app. rewrite Htrace2, Htrace1, <- !app_assoc. reflexivity.
    + split; rewrite in_app_iff; intros [Hin|[Hin|[]]];
        try discriminate Hin; tauto.
  - destruct (truthy cachefile_name); exact Hfile || exact I.
Qed.

End LoadGamespec.

(** * Main results about [load_gamespec] *)

Section LoadGamespecClaims.

Context {tree : Type} `{Collaborators tree}.
Implicit Type w : world.
Implicit Type game_version : game_version_t.


(** C3, as amended.  In every call that does not hit the cache,
    whatever the cache file name, [load_gamespec] works on the
    COMPRESSED file: it reads the rest of [fileobj], closes it, and
    calls [decompress(data, -15)] itself before anything is decoded.
    The result is the decode of the decompressed bytes followed by the
    store step, so a tree that comes back is the first element of that
    decode; the file object is closed when the call ends. *)
Theorem load_gamespec_decompresses game_version cachefile_name load_cache w :
  no_cache_hit w cachefile_name load_cache ->
  fst (load_gamespec game_version cachefile_name load_cache w)
  = miss_result w game_version cachefile_name
  /\ match fst (load_gamespec game_version cachefile_name load_cache w) with
     | Ok t => decoded (fileobj w) game_version = Ok t
     | Raise _ => True
     end
  /\ fo_closed (fileobj (snd (load_gamespec game_version cachefile_name load_cache w)))
     = true
  /\ (fo_closed (fileobj w) = true
      /\ fst (load_gamespec game_version cachefile_name load_cache w)
         = Raise ValueError
      \/ fo_closed (fileobj w) = false
         /\ fo_pos (fileobj (snd (load_gamespec game_version cachefile_name
                                    load_cache w)))
            = Nat.max (fo_pos (fileobj w)) (List.length (fo_data (fileobj w)))
         /\ exists before after,
              new_events w (snd (load_gamespec game_version cachefile_name load_cache w))
              = before ++ read_and_inflate ++ after
              /\ ~ In (Called wrapper_read_call) before
              /\ ~ In (Called decompress_call) before).
Proof.
  intros Hno.
  pose proof (load_gamespec_run game_version cachefile_name load_cache w Hno)
    as (Hres & Hclosed & Hopen & _).
  split; [exact Hres|]. split; [|split; [exact Hclosed|]].
  - rewrite Hres. unfold miss_result.
    destruct (decoded (fileobj w) game_version) as [t|e]; [|exact I].
    destruct (truthy cachefile_name) as [name|]; [|reflexivity].
    now destruct (store_result w name t).
  - destruct (fo_closed (fileobj w)) eqn:Hc.
    + left. split; [reflexivity|]. rewrite Hres. unfold miss_result, decoded.
      now rewrite Hc.
    + right. split; [reflexivity|].
      destruct Hopen as [Habs | Hrun]; [discriminate Habs | exact Hrun].
Qed.

(** C4, as amended.  Once the tree is decoded and a cache file name is
    given, the store step decides: if [open(name, "wb")] succeeds and
    [pickle.dump] succeeds, the tree is returned and the cache file
    holds its pickle; if opening the file for writing raises, or
    [pickle.dump] raises, that exception is the outcome of the call and
    the tree is not returned. *)
Theorem store_step_decides game_version name load_cache w t :
  truthy (Some name) = Some name ->
  load_cache = false \/ cache_load_fails w name ->
  decoded (fileobj w) game_version = Ok t ->
  match open_wb_result (disk w) name with
  | Ok _ =>
      match pickle_dump t with
      | Ok pickled =>
          fst (load_gamespec game_version (Some name) load_cache w) = Ok t
          /\ file_content
               (disk (snd (load_gamespec game_version (Some name) load_cache w))) name
             = Some pickled
      | Raise e =>
          fst (load_gamespec game_version (Some name) load_cache w) = Raise e
      end
  | Raise e =>
      fst (load_gamespec game_version (Some name) load_cache w) = Raise e
  end.
Proof.
  intros Hname Hcache Hdec.
  assert (Hno : no_cache_hit w (Some name) load_cache)
    by (unfold no_cache_hit; now rewrite Hname).
  pose proof (load_gamespec_run game_version (Some name) load_cache w Hno)
    as (Hres & _ & _ & Hfile).
  rewrite Hres. unfold miss_result. rewrite Hname, Hdec in *.
  unfold store_result in *.
  destruct (open_wb_result (disk w) name) as [d'|e]; [|reflexivity].
  destruct (pickle_dump t) as [pickled|e]; [now split | reflexivity].
Qed.

(** X9.  With [load_cache] set, a loadable cache file is returned at once:
    the file object is untouched and the only events are the opening of
    the cache, the unpickling and the log line.  With [load_cache]
    unset the call is the decode followed by the store step. *)
Theorem cache_hit_needs_flag game_version name w t :
  truthy (Some name) = Some name ->
  cache_holds w name t ->
  load_gamespec game_version (Some name) true w
  = (Ok t,
     mkWorld (disk w) (fileobj w)
       (trace w ++ [Opened name "rb"; Called pickle_load_call;
                    Logged INFO "using cached wrapper: %s" [ArgStr name]]))
  /\ load_gamespec game_version (Some name) false w
     = (gamespec ← read_dat game_version;
        store_cache (Some name) gamespec;;
        mret gamespec) w.
Proof.
  intros Hname Hhit. split.
  - unfold load_gamespec.
    now rewrite bind_run, (try_cache_hit name w t Hname Hhit).
  - apply load_gamespec_after_miss, try_cache_off.
Qed.

End LoadGamespecClaims.

(** * The presence gate and its length *)

Section GateLength.

Variable decode_struct :
  struct_ref -> game_version_t -> gmap string value -> bytes -> nat ->
  result decode_error (nat * ParsedNode).
Variable game_version : game_version_t.
Variable data : bytes.

Lemma le_unsigned_nonneg raw : (0 <= le_unsigned raw)%Z.
Proof.
  induction raw as [|b raw IH]; cbn [le_unsigned]; [lia|].
  pose proof (N2Z.is_nonneg (Byte.to_N b)). lia.
Qed.

Lemma chunks_length w n raw : List.length (chunks w n raw) = n.
Proof.
  revert raw. induction n as [|n IH]; intros raw; cbn [chunks List.length];
    [reflexivity | now rewrite IH].
Qed.

Lemma decode_members_app forwarded l1 l2 :
  forall offset (siblings : gmap string value) out,
    decode_members decode_struct game_version data forwarded (l1 ++ l2)
      offset siblings out
    = ('(offset1, siblings1, out1) ←
         decode_members decode_struct game_version data forwarded l1
           offset siblings out;
       decode_members decode_struct game_version data forwarded l2
         offset1 siblings1 out1).
Proof.
  induction l1 as [|d l1 IH]; intros offset siblings out.
  - reflexivity.
  - cbn [app decode_members].
    destruct (decode_field decode_struct game_version data forwarded siblings d offset)
      as [[offset' v]|e]; [|reflexivity].
    cbn. destruct (retain d v siblings out) as [siblings' out']. apply IH.
Qed.

Lemma decode_graphic_count forwarded (siblings : gmap string value) offset offset' v :
  decode_field decode_struct game_version data forwarded siblings
    graphic_count_member offset = Ok (offset', v) ->
  exists z, v = VInt z /\ (0 <= z)%Z.
Proof.
  unfold decode_field, graphic_count_member.
  cbn [member_storage member_type fst snd].
  change (prim_width "uint16_t") with (Some 2%nat).
  cbv beta iota.
  destruct (consume _ _ _) as [raw|e]; cbn [mbind result_bind]; [|discriminate].
  intros Heq. injection Heq as _ <-.
  exists (le_unsigned raw). split; [reflexivity | apply le_unsigned_nonneg].
Qed.

Lemma decode_graphic_ptrs forwarded (siblings : gmap string value) offset offset' v z :
  siblings !! "graphic_count" = Some (VInt z) ->
  (0 <= z)%Z ->
  decode_field decode_struct game_version data forwarded siblings
    graphic_ptrs_member offset = Ok (offset', v) ->
  exists zs, v = VArray zs /\ List.length zs = Z.to_nat z.
Proof.
  intros Hcount Hz.
  unfold decode_field, graphic_ptrs_member.
  cbn [member_storage member_type fst snd].
  change (array_length "uint32_t[graphic_count]") with (Some (LenName "graphic_count")).
  change (element_type "uint32_t[graphic_count]") with "uint32_t".
  change (prim_width "uint32_t") with (Some 4%nat).
  cbv beta iota.
  cbn [resolve_count]. rewrite Hcount.
  destruct (0 <=? z)%Z eqn:Hle; [|lia].
  cbn [mbind result_bind].
  destruct (consume _ _ _) as [raw|e]; cbn [mbind result_bind]; [|discriminate].
  intros Heq. injection Heq as _ <-.
  eexists. split; [reflexivity|].
  now rewrite length_map, chunks_length.
Qed.

(** Right after ["graphic_count"] and ["graphic_ptrs"] are read, the
    array has as many entries as the count says. *)
Lemma gate_aligned_after forwarded pre offset (siblings0 : gmap string value) out0
    offset' siblings out :
  decode_members decode_struct game_version data forwarded
    (pre ++ [graphic_count_member; graphic_ptrs_member]) offset siblings0 out0
  = Ok (offset', siblings, out) ->
  gate_aligned siblings.
Proof.
  rewrite decode_members_app.
  destruct (decode_members decode_struct game_version data forwarded pre
              offset siblings0 out0) as [[[offset1 siblings1] out1]|e];
    cbn [mbind result_bind]; [|discriminate].
  cbn [decode_members].
  destruct (decode_field decode_struct game_version data forwarded siblings1
              graphic_count_member offset1) as [[offset2 v]|e] eqn:Hcount;
    cbn [mbind result_bind]; [|discriminate].
  apply decode_graphic_count in Hcount as [z [-> Hz]].
  change (retain graphic_count_member (VInt z) siblings1 out1)
    with (<["graphic_count" := VInt z]> siblings1,
          out1 ++ [("graphic_count", false, VInt z)]).
  cbv beta iota.
  destruct (decode_field decode_struct game_version data forwarded
              (<["graphic_count" := VInt z]> siblings1)
              graphic_ptrs_member offset2) as [[offset3 v]|e] eqn:Hptrs;
    cbn [mbind result_bind]; [|discriminate].
  apply (decode_graphic_ptrs _ _ _ _ _ z) in Hptrs as [zs [-> Hlen]];
    [|apply lookup_insert_eq | assumption].
  change (retain graphic_ptrs_member (VArray zs)
            (<["graphic_count" := VInt z]> siblings1)
            (out1 ++ [("graphic_count", false, VInt z)]))
    with (<["graphic_ptrs" := VArray zs]> (<["graphic_count" := VInt z]> siblings1),
          (out1 ++ [("graphic_count", false, VInt z)])
            ++ [("graphic_ptrs", false, VArray zs)]).
  cbv beta iota.
  intros Heq. injection Heq as _ <- _.
  exists (Z.to_nat z), zs. repeat split.
  - cbn [resolve_count].
    rewrite lookup_insert_ne by done. rewrite lookup_insert_eq.
    destruct (0 <=? z)%Z eqn:Hle; [reflexivity | lia].
  - cbn [resolve_gate]. now rewrite lookup_insert_eq.
  - assumption.
Qed.

End GateLength.

Lemma before_graphics game_version :
  let pre := members_before "graphics" (EmpiresDat.get_data_format_members game_version) in
  pre = removelast (removelast pre) ++ [graphic_count_member; graphic_ptrs_member].
Proof. by_edition game_version; vm_compute; reflexivity. Qed.

(** C8.  The only member with a presence gate is ["graphics"], gated on
    ["graphic_ptrs"]; both take their length from the sibling
    ["graphic_count"], and when ["graphics"] is reached in a decode the
    gate array has exactly as many entries as the count resolves to.
    On the unsigned entries of the gate, the predicate [o > 0] is the
    test for non-zero. *)
Theorem presence_gate_matches_length (game_version : game_version_t) :
  let ds := EmpiresDat.get_data_format_members game_version in
  List.filter is_gated ds = [graphics_member]
  /\ List.filter (has_name "graphic_ptrs") ds = [graphic_ptrs_member]
  /\ member_gate graphics_member = Some "graphic_ptrs"
  /\ member_length graphics_member = Some (LenName "graphic_count")
  /\ member_length graphic_ptrs_member = Some (LenName "graphic_count")
  /\ (forall o : Z, (0 <= o)%Z -> (0 <? o)%Z = negb (o =? 0)%Z)
  /\ (forall decode_struct data forwarded offset offset' siblings out,
        decode_members decode_struct game_version data forwarded
          (members_before "graphics" ds) offset ∅ []
        = Ok (offset', siblings, out) ->
        gate_aligned siblings).
Proof.
  cbv zeta. repeat split.
  - by_edition game_version; vm_compute; reflexivity.
  - by_edition game_version; vm_compute; reflexivity.
  - intros o Ho. destruct (Z.ltb_spec 0 o), (Z.eqb_spec o 0); cbn; lia.
  - intros decode_struct data forwarded offset offset' siblings out.
    pose proof (before_graphics game_version) as Hpre. cbv zeta in Hpre.
    rewrite Hpre. apply gate_aligned_after.
Qed.

(** * Concrete runs *)

(** The type strings of the member list, read. *)
Example array_length_by_name :
  array_length "int32_t[terrain_restriction_count]"
  = Some (LenName "terrain_restriction_count").
Proof. reflexivity. Qed.

Example array_length_literal : array_length "uint32_t[157]" = Some (LenInt 157).
Proof. reflexivity. Qed.

Example array_length_scalar : array_length "uint16_t" = None.
Proof. reflexivity. Qed.

(** The example of the spec: two bytes of count, then two elements. *)
Example decode_counted_schema :
  decode Sample.decode_byte_struct Sample.game_version
    [Byte.x02; Byte.x00; Byte.xaa; Byte.xbb] EmpiresDat_ref
    Sample.counted_schema ∅ 0
  = Ok (4%nat,
        Node EmpiresDat_ref
          [("countField", false, VInt 2);
           ("elements", false,
            VNodes [Some (Node terrain_TileSize [("value", false, VInt 170)]);
                    Some (Node terrain_TileSize [("value", false, VInt 187)])])]).
Proof. vm_compute. reflexivity. Qed.

(** A gate of zeros: no element is read and the cursor stays after the
    gate array. *)
Example decode_gated_schema_all_absent :
  decode Sample.decode_byte_struct Sample.game_version
    [Byte.x02; Byte.x00;
     Byte.x00; Byte.x00; Byte.x00; Byte.x00;
     Byte.x00; Byte.x00; Byte.x00; Byte.x00;
     Byte.xaa; Byte.xbb] EmpiresDat_ref
    Sample.gated_schema ∅ 0
  = Ok (10%nat,
        Node EmpiresDat_ref
          [("countField", false, VInt 2);
           ("ptrs", false, VArray [0%Z; 0%Z]);
           ("elements", false, VNodes [None; None])]).
Proof. vm_compute. reflexivity. Qed.

(** A length that names no earlier field, and a buffer that ends early. *)
Example decode_missing_length :
  decode Sample.decode_byte_struct Sample.game_version
    [Byte.x02; Byte.x00] EmpiresDat_ref
    (tl Sample.counted_schema) ∅ 0
  = Raise (MissingLengthReference "countField").
Proof. vm_compute. reflexivity. Qed.

Example decode_truncated :
  decode Sample.decode_byte_struct Sample.game_version
    [Byte.x02; Byte.x00; Byte.xaa] EmpiresDat_ref
    Sample.counted_schema ∅ 0
  = Raise TruncatedInput.
Proof. vm_compute. reflexivity. Qed.

(** The number of members by edition. *)
Example member_counts :
  map (fun ed => List.length (EmpiresDat.get_data_format_members (ed, [])))
      [ROR; AOC; HDEDITION; AOE1DE; AOE2DE; SWGB]
  = [54; 79; 79; 54; 75; 88]%nat.
Proof. vm_compute. reflexivity. Qed.

Lemma unknown_edition_falls_through_witness :
  schema_builder (OtherEdition 7, [])
  = Ok (fallthrough_layout (OtherEdition 7, [])).
Proof. apply unknown_edition_falls_through. reflexivity. Defined.

(** Against C1 as stated: an edition that no branch names is not
    rejected, it gets 79 members with a ["terrains"] array of 32. *)
Lemma unknown_edition_not_rejected :
  edition_in (OtherEdition 0) known_editions = false
  /\ schema_builder (OtherEdition 0, []) <> Raise UnsupportedVersion
  /\ option_map (@List.length member)
       (match schema_builder (OtherEdition 0, []) with
        | Ok ds => Some ds
        | Raise _ => None
        end) = Some 79%nat
  /\ List.filter (has_name "terrains")
       (EmpiresDat.get_data_format_members (OtherEdition 0, []))
     = [terrains_member 32].
Proof.
  repeat split; try (vm_compute; reflexivity).
  intros Hraise. discriminate Hraise.
Qed.

Lemma lengths_refer_to_earlier_members_witness :
  well_scoped (EmpiresDat.get_data_format_members Sample.game_version)
  /\ ~ raises_missing
         (decode Sample.decode_struct Sample.game_version Sample.dat_header
            EmpiresDat_ref
            (EmpiresDat.get_data_format_members Sample.game_version) ∅ 0).
Proof.
  apply lengths_refer_to_earlier_members.
  intros ref gv args bs o [n Hn]. discriminate Hn.
Defined.

Lemma presence_gate_matches_length_witness :
  match decode_members Sample.decode_struct Sample.game_version Sample.dat_header ∅
          (members_before "graphics"
             (EmpiresDat.get_data_format_members Sample.game_version)) 0 ∅ []
  with
  | Ok (offset', _, _) => Some offset'
  | Raise _ => None
  end = Some 26%nat
  /\ exists offset' siblings out,
       decode_members Sample.decode_struct Sample.game_version Sample.dat_header ∅
         (members_before "graphics"
            (EmpiresDat.get_data_format_members Sample.game_version)) 0 ∅ []
       = Ok (offset', siblings, out)
       /\ gate_aligned siblings.
Proof.
  match goal with |- ?P /\ _ => assert (Hoffset : P) by (vm_compute; reflexivity) end.
  split; [exact Hoffset|].
  destruct (decode_members Sample.decode_struct Sample.game_version Sample.dat_header ∅
              (members_before "graphics"
                 (EmpiresDat.get_data_format_members Sample.game_version)) 0 ∅ [])
    as [[[offset' siblings] out]|e] eqn:Hrun.
  - exists offset', siblings, out. split; [reflexivity|].
    exact (proj2 (proj2 (proj2 (proj2 (proj2 (proj2
             (presence_gate_matches_length Sample.game_version))))))
             _ _ _ _ _ _ _ Hrun).
  - discriminate Hoffset.
Defined.



(** A missing cache file in a directory that does not exist: the load
    of the cache is a miss, the decode succeeds, and the store step
    raises the [FileNotFoundError] of [open(name, "wb")]. *)
Example store_in_missing_directory_raises :
  fst (try_cache (Some Sample.cache_path_nowhere) true
         (Sample.world_with Sample.disk_empty))
  = Ok None
  /\ decoded (fileobj (Sample.world_with Sample.disk_empty)) Sample.game_version
     = Ok Sample.dat_payload
  /\ fst (load_gamespec Sample.game_version (Some Sample.cache_path_nowhere) true
            (Sample.world_with Sample.disk_empty))
     = Raise FileNotFoundError
  /\ fst (load_gamespec Sample.game_version None true
            (Sample.world_with Sample.disk_empty))
     = Ok Sample.dat_payload.
Proof. repeat split; vm_compute; reflexivity. Qed.

(** No cache file, in a directory that may not be written: creating
    the file raises [PermissionError]. *)
Example store_in_readonly_directory_raises :
  fst (load_gamespec Sample.game_version (Some Sample.cache_path) true
         (Sample.world_with Sample.disk_readonly_directory))
  = Raise PermissionError.
Proof. vm_compute. reflexivity. Qed.

(** A cache path under a regular file: [open(name, "rb")] raises
    [NotADirectoryError], which [except FileNotFoundError] does not
    catch. *)
Example cache_under_regular_file_raises :
  fst (load_gamespec Sample.game_version (Some Sample.cache_path_under_file) true
         (Sample.world_with Sample.disk_file_as_directory))
  = Raise NotADirectoryError
  /\ fst (load_gamespec Sample.game_version (Some Sample.cache_path_under_file) false
            (Sample.world_with Sample.disk_file_as_directory))
     = Raise NotADirectoryError.
Proof. split; vm_compute; reflexivity. Qed.

(** A fresh cache file in the working directory is created and holds
    the pickle of the decoded tree. *)
Example store_creates_cache_file :
  fst (load_gamespec Sample.game_version (Some Sample.cache_path) true
         (Sample.world_with Sample.disk_empty))
  = Ok Sample.dat_payload
  /\ file_content
       (disk (snd (load_gamespec Sample.game_version (Some Sample.cache_path) true
                     (Sample.world_with Sample.disk_empty))))
       Sample.cache_path
     = Some (Byte.x80 :: Sample.dat_payload).
Proof. split; vm_compute; reflexivity. Qed.

Lemma load_gamespec_decompresses_witness :
  fst (load_gamespec Sample.game_version (Some Sample.cache_path) true
         (Sample.world_with Sample.disk_corrupt_cache))
  = Ok Sample.dat_payload
  /\ fo_closed (fileobj (snd (load_gamespec Sample.game_version
                                (Some Sample.cache_path) true
                                (Sample.world_with Sample.disk_corrupt_cache))))
     = true
  /\ exists before after,
       new_events (Sample.world_with Sample.disk_corrupt_cache)
         (snd (load_gamespec Sample.game_version (Some Sample.cache_path) true
                 (Sample.world_with Sample.disk_corrupt_cache)))
       = before ++ read_and_inflate ++ after
       /\ ~ In (Called wrapper_read_call) before
       /\ ~ In (Called decompress_call) before.
Proof.
  assert (Hno : no_cache_hit (Sample.world_with Sample.disk_corrupt_cache)
                  (Some Sample.cache_path) true).
  { change (true = false
             \/ cache_load_fails (Sample.world_with Sample.disk_corrupt_cache)
                  Sample.cache_path).
    right. right. exists [Byte.x00; Byte.x01], UnpicklingError.
    repeat split; vm_compute; reflexivity. }
  pose proof (load_gamespec_decompresses Sample.game_version
                (Some Sample.cache_path) true
                (Sample.world_with Sample.disk_corrupt_cache) Hno)
    as (_ & _ & Hclosed & Hopen).
  split; [vm_compute; reflexivity|]. split; [exact Hclosed|].
  destruct Hopen as [[Habs _] | (_ & _ & Hevents)]; [discriminate Habs|].
  exact Hevents.
Defined.

(** Against C3 as stated: the bytes handed over are a DEFLATE stream,
    the call inflates them, and the tree is the decode of the inflated
    bytes, not of the bytes given. *)
Lemma load_gamespec_inflates_its_input :
  fst (load_gamespec Sample.game_version None false
         (Sample.world_with Sample.disk_empty))
  = Ok Sample.dat_payload
  /\ decoded_as_given (fileobj (Sample.world_with Sample.disk_empty))
       Sample.game_version
     = Ok Sample.dat_stream
  /\ Sample.dat_payload <> Sample.dat_stream
  /\ In (Called decompress_call)
       (trace (snd (load_gamespec Sample.game_version None false
                      (Sample.world_with Sample.disk_empty)))).
Proof.
  repeat split; try (vm_compute; reflexivity).
  - intros Heq. discriminate Heq.
  - vm_compute. tauto.
Qed.

Lemma store_step_decides_witness :
  match open_wb_result (disk (Sample.world_with Sample.disk_empty)) Sample.cache_path
  with
  | Ok _ =>
      match pickle_dump Sample.dat_payload with
      | Ok pickled =>
          fst (load_gamespec Sample.game_version (Some Sample.cache_path) false
                 (Sample.world_with Sample.disk_empty))
          = Ok Sample.dat_payload
          /\ file_content
               (disk (snd (load_gamespec Sample.game_version (Some Sample.cache_path)
                             false (Sample.world_with Sample.disk_empty))))
               Sample.cache_path
             = Some pickled
      | Raise e =>
          fst (load_gamespec Sample.game_version (Some Sample.cache_path) false
                 (Sample.world_with Sample.disk_empty))
          = Raise e
      end
  | Raise e =>
      fst (load_gamespec Sample.game_version (Some Sample.cache_path) false
             (Sample.world_with Sample.disk_empty))
      = Raise e
  end.
Proof.
  apply store_step_decides.
  - reflexivity.
  - left. reflexivity.
  - vm_compute. reflexivity.
Defined.

(** Against C4 as stated: the tree is decoded, the cache path names a
    directory, and the caller gets the exception of the store step
    instead of the tree. *)
Lemma store_failure_loses_the_tree :
  decoded (fileobj (Sample.world_with Sample.disk_cache_is_directory))
    Sample.game_version
  = Ok Sample.dat_payload
  /\ fst (load_gamespec Sample.game_version (Some Sample.cache_path) false
            (Sample.world_with Sample.disk_cache_is_directory))
     = Raise IsADirectoryError.
Proof. split; vm_compute; reflexivity. Qed.

Lemma cache_hit_needs_flag_witness :
  load_gamespec Sample.game_version (Some Sample.cache_path) true
    (Sample.world_with Sample.disk_valid_cache)
  = (Ok Sample.older_tree,
     mkWorld (disk (Sample.world_with Sample.disk_valid_cache))
       (fileobj (Sample.world_with Sample.disk_valid_cache))
       (trace (Sample.world_with Sample.disk_valid_cache)
          ++ [Opened Sample.cache_path "rb"; Called pickle_load_call;
              Logged INFO "using cached wrapper: %s" [ArgStr Sample.cache_path]]))
  /\ load_gamespec Sample.game_version (Some Sample.cache_path) false
       (Sample.world_with Sample.disk_valid_cache)
     = (gamespec ← read_dat Sample.game_version;
        store_cache (Some Sample.cache_path) gamespec;;
        mret gamespec) (Sample.world_with Sample.disk_valid_cache).
Proof.
  apply cache_hit_needs_flag.
  - reflexivity.
  - exists (Byte.x80 :: Sample.older_tree).
    split; vm_compute; reflexivity.
Defined.

(** C5.  The code departs from the claim, and from the docstring of
    [load_gamespec], at this input: a cache file name is given and the
    cache file holds a loadable tree, yet with [load_cache] left at its
    default the cache is not opened for reading, the data file is
    decoded, the decoded tree comes back rather than the cached one,
    and the cache file is overwritten with it. *)
Lemma cache_ignored_without_flag :
  cache_holds (Sample.world_with Sample.disk_valid_cache) Sample.cache_path
    Sample.older_tree
  /\ fst (load_gamespec Sample.game_version (Some Sample.cache_path) false
            (Sample.world_with Sample.disk_valid_cache))
     = Ok Sample.dat_payload
  /\ Sample.dat_payload <> Sample.older_tree
  /\ In (Called wrapper_read_call)
       (trace (snd (load_gamespec Sample.game_version (Some Sample.cache_path) false
                      (Sample.world_with Sample.disk_valid_cache))))
  /\ ~ In (Opened Sample.cache_path "rb")
         (trace (snd (load_gamespec Sample.game_version (Some Sample.cache_path) false
                        (Sample.world_with Sample.disk_valid_cache))))
  /\ file_content
       (disk (snd (load_gamespec Sample.game_version (Some Sample.cache_path) false
                     (Sample.world_with Sample.disk_valid_cache))))
       Sample.cache_path
     = Some (Byte.x80 :: Sample.dat_payload).
Proof.
  split; [|split; [|split; [|split; [|split]]]].
  - exists (Byte.x80 :: Sample.older_tree). split; vm_compute; reflexivity.
  - vm_compute. reflexivity.
  - intros Heq. discriminate Heq.
  - vm_compute. tauto.
  - vm_compute. intros Hin.
    repeat (destruct Hin as [Hin | Hin]; [discriminate Hin|]). exact Hin.
  - vm_compute. reflexivity.
Qed.

(** * Properties of the code compliance checker *)

Import codecompliance compliance_summary main_summary.

Lemma Cmd_bind_run {A B} (m : Cmd A) (f : A -> Cmd B) s :
  (m ≫= f) s
  = match m s with
    | (Ok a, s') => f a s'
    | (Raise e, s') => (Raise e, s')
    end.
Proof. reflexivity. Qed.

Lemma when_args_run cond body s :
  when_args cond body s = if cond (st_args s) then body s else (Ok tt, s).
Proof.
  unfold when_args. rewrite Cmd_bind_run. cbn. now destruct (cond (st_args s)).
Qed.

Lemma state_eta s : mkState (st_args s) (st_console s) = s.
Proof. now destruct s. Qed.

Lemma merge_assign c b a : merge (assign c b a) = merge a.
Proof. reflexivity. Qed.

Lemma all_assign c b a : all (assign c b a) = all a.
Proof. reflexivity. Qed.

(** The three group options, one after the other. *)
Lemma enable_run (k : Cmd unit) a out :
  (when_args (fun args => fast args || merge args || all args)
     (set_attr Authors true;;
      set_attr Cppstyle true;;
      set_attr Cython true;;
      set_attr Headerguards true;;
      set_attr Legal true;;
      set_attr Filemodes true;;
      set_attr Textfiles true);;
   when_args (fun args => merge args || all args)
     (set_attr Pystyle true;;
      set_attr Pylint true;;
      set_attr TestGitChangeYears true);;
   when_args (fun args => all args)
     (set_attr ClangTidy true);;
   k) (mkState a out)
  = k (mkState (enable_groups a) out).
Proof.
  unfold enable_groups, when_args, get_args, set_attr, mbind, Cmd_bind, mret, Cmd_ret.
  cbn [st_args st_console].
  destruct (fast a || merge a || all a); cbn -[assign];
    rewrite ?merge_assign, ?all_assign;
    destruct (merge a || all a); cbn -[assign];
    rewrite ?merge_assign, ?all_assign;
    destruct (all a); reflexivity.
Qed.

Lemma cli_error_run message s :
  cli_error message s
  = (Raise (SystemExit 2), mkState (st_args s) (st_console s ++ [Error message])).
Proof. reflexivity. Qed.

Lemma print_run text s :
  print text s = (Ok tt, mkState (st_args s) (st_console s ++ [Print text])).
Proof. reflexivity. Qed.

Lemma set_attr_run c b s :
  set_attr c b s = (Ok tt, mkState (assign c b (st_args s)) (st_console s)).
Proof. reflexivity. Qed.

Lemma mret_run {A} (a : A) (s : state) : (mret a : Cmd A) s = (Ok a, s).
Proof. reflexivity. Qed.

Ltac peel :=
  rewrite Cmd_bind_run, when_args_run; cbn [st_args st_console]; cbv beta.

Lemma validate_run sys a1 out1 :
  (when_args (fun args => negb (any_check args))
     (cli_error "no checks were specified");;
   when_args (fun args =>
                match gitref args with Some _ => true | None => false end
                && negb (which sys "git" && path_exists sys ".git"))
     (cli_error "can not check only changed files: git is required");;
   when_args (fun args => authors args)
     (if negb (which sys "git" && path_exists sys ".git") then
        print "can not check author list for compliance: git is required";;
        set_attr Authors false
      else mret tt);;
   when_args (fun args => test_git_change_years args)
     (when_args (fun args => negb (legal args))
        (cli_error "--test-git-change-years may only be passed with --legal");;
      if negb (which sys "git" && path_exists sys ".git") then
        cli_error "--test-git-change-years requires git"
      else mret tt);;
   when_args (fun args => pystyle args)
     (if negb (find_spec sys "pep8") && negb (find_spec sys "pycodestyle") then
        cli_error "pep8 or pycodestyle python module required for style checking"
      else mret tt);;
   when_args (fun args => pylint args)
     (if negb (find_spec sys "pylint") then
        cli_error "pylint python module required for linting"
      else mret tt);;
   when_args (fun args => clang_tidy args)
     (if negb (which sys "clang-tidy") then
        cli_error "--clang-tidy requires clang-tidy to be installed"
      else mret tt)) (mkState a1 out1)
  = requirements_outcome sys a1 out1.
Proof.
  unfold requirements_outcome, early_error, late_error, settle_authors, authors_notice,
    has_gitref, git_available.
  set (g := which sys "git" && path_exists sys ".git").
  (* no checks *)
  peel. destruct (any_check a1); cbn [negb]; [|reflexivity]. cbv iota.
  (* only changed files *)
  peel.
  destruct (match gitref a1 with Some _ => true | None => false end && negb g);
    [reflexivity|]. cbv iota.
  (* authors *)
  peel.
  set (a2 := if authors a1 && negb g then assign Authors false a1 else a1).
  set (out2 := out1 ++ (if authors a1 && negb g
                        then [Print "can not check author list for compliance: git is required"]
                        else [])).
  assert (Hlegal : legal a2 = legal a1)
    by (subst a2; destruct (authors a1 && negb g); reflexivity).
  assert (Hyears : test_git_change_years a2 = test_git_change_years a1)
    by (subst a2; destruct (authors a1 && negb g); reflexivity).
  assert (Hpystyle : pystyle a2 = pystyle a1)
    by (subst a2; destruct (authors a1 && negb g); reflexivity).
  assert (Hpylint : pylint a2 = pylint a1)
    by (subst a2; destruct (authors a1 && negb g); reflexivity).
  assert (Htidy : clang_tidy a2 = clang_tidy a1)
    by (subst a2; destruct (authors a1 && negb g); reflexivity).
  set (tail := when_args (fun args => test_git_change_years args) _ ≫= _).
  assert (Hstep :
    (if authors a1
     then (if negb g
           then print "can not check author list for compliance: git is required";;
                set_attr Authors false
           else mret tt) (mkState a1 out1)
     else (Ok tt, mkState a1 out1))
    = (Ok tt, mkState a2 out2)).
  { subst a2 out2. destruct (authors a1), (negb g); cbn [andb];
      rewrite ?app_nil_r; reflexivity. }
  rewrite Hstep. cbv iota. subst tail.
  clearbody a2 out2.
  (* test-git-change-years *)
  peel. rewrite Hyears.
  destruct (test_git_change_years a1); cbn [andb].
  - peel. rewrite Hlegal. destruct (legal a1); cbn [negb].
    + cbv iota. destruct (negb g).
      * reflexivity.
      * rewrite mret_run. cbv iota.
        peel. rewrite Hpystyle. shelve.
    + reflexivity.
  - cbv iota. peel. rewrite Hpystyle. shelve.
  Unshelve.
  all: destruct (pystyle a1); cbn [andb].
  all: try (destruct (negb (find_spec sys "pep8") && negb (find_spec sys "pycodestyle"));
            [reflexivity | rewrite mret_run]).
  all: cbv iota; peel; rewrite Hpylint; destruct (pylint a1); cbn [andb].
  all: try (destruct (negb (find_spec sys "pylint")); [reflexivity | rewrite mret_run]).
  all: cbv iota; rewrite when_args_run; cbn [st_args]; rewrite Htidy;
    destruct (clang_tidy a1); cbn [andb].
  all: try (destruct (negb (which sys "clang-tidy")); reflexivity).
  all: reflexivity.
Qed.

Lemma process_args_run sys a out :
  process_args sys cli_error (mkState a out) = process_args_outcome sys a out.
Proof.
  unfold process_args, process_args_outcome.
  rewrite Cmd_bind_run. cbn [get_args st_args].
  rewrite Cmd_bind_run. cbn [log_setup show st_args st_console].
  rewrite enable_run. apply validate_run.
Qed.

Section ProcessArgs.

Variable sys : System.

Ltac head_atom b :=
  lazymatch b with
  | negb ?x => head_atom x
  | andb ?x _ => head_atom x
  | orb ?x _ => head_atom x
  | _ => b
  end.

(** Case analysis on the tests of a hypothesis, dropping the cases it
    excludes. *)
Ltac split_tests H :=
  repeat match type of H with
         | context [if ?b then _ else _] =>
             let x := head_atom b in
             destruct x eqn:?; cbn [andb orb negb] in H; try discriminate H
         end.

Lemma late_error_none a1 :
  late_error sys a1 = None ->
  (test_git_change_years a1 = true -> legal a1 = true /\ git_available sys = true)
  /\ (pystyle a1 = true ->
      find_spec sys "pep8" || find_spec sys "pycodestyle" = true)
  /\ (pylint a1 = true -> find_spec sys "pylint" = true)
  /\ (clang_tidy a1 = true -> which sys "clang-tidy" = true).
Proof.
  unfold late_error. intros H. split_tests H.
  all: repeat split; intros; try discriminate; try reflexivity; auto.
Qed.

Lemma settle_authors_enabled a1 c :
  c <> Authors -> enabled c (settle_authors sys a1) = enabled c a1.
Proof.
  unfold settle_authors. intros Hc.
  destruct (authors a1 && negb (git_available sys)); [|reflexivity].
  destruct c; try reflexivity. now contradict Hc.
Qed.

Lemma settle_authors_authors a1 :
  authors (settle_authors sys a1) = authors a1 && git_available sys.
Proof.
  unfold settle_authors.
  destruct (authors a1) eqn:Ha, (git_available sys); cbn; now rewrite ?Ha.
Qed.

Lemma process_args_ok a out :
  fst (process_args sys cli_error (mkState a out)) = Ok tt ->
  early_error sys (enable_groups a) = None
  /\ late_error sys (enable_groups a) = None
  /\ st_args (snd (process_args sys cli_error (mkState a out)))
     = settle_authors sys (enable_groups a).
Proof.
  rewrite process_args_run. unfold process_args_outcome, requirements_outcome.
  destruct (early_error sys (enable_groups a)); [discriminate|].
  destruct (late_error sys (enable_groups a)); [discriminate|].
  intros _. repeat split.
Qed.

(** X1.  When [process_args] returns normally, every check that is
    still enabled in the namespace has what it needs from the machine:
    git and a repository for the author check and the change years
    (which also need [--legal]), a style module, pylint, clang-tidy. *)
Theorem process_args_requirements a out c :
  fst (process_args sys cli_error (mkState a out)) = Ok tt ->
  enabled c (st_args (snd (process_args sys cli_error (mkState a out)))) = true ->
  requirement_met sys
    (st_args (snd (process_args sys cli_error (mkState a out)))) c = true.
Proof.
  intros Hok. destruct (process_args_ok a out Hok) as (_ & Hlate & ->).
  destruct (late_error_none _ Hlate) as (Hyears & Hstyle & Hlint & Htidy).
  set (a1 := enable_groups a) in *.
  pose proof (fun c H => settle_authors_enabled a1 c H) as Hsame.
  destruct c; cbn [enabled requirement_met]; try reflexivity.
  - rewrite settle_authors_authors. intros H. now apply andb_true_iff in H.
  - specialize (Hsame ClangTidy ltac:(discriminate)). cbn [enabled] in Hsame.
    rewrite Hsame. exact Htidy.
  - specialize (Hsame Pylint ltac:(discriminate)). cbn [enabled] in Hsame.
    rewrite Hsame. exact Hlint.
  - specialize (Hsame Pystyle ltac:(discriminate)). cbn [enabled] in Hsame.
    rewrite Hsame. exact Hstyle.
  - pose proof (Hsame TestGitChangeYears ltac:(discriminate)) as Hy.
    pose proof (Hsame Legal ltac:(discriminate)) as Hl.
    cbn [enabled] in Hy, Hl. rewrite Hy, Hl.
    intros H. destruct (Hyears H) as [-> ->]. reflexivity.
Qed.

Lemma enable_groups_enabled a c :
  enabled c (enable_groups a)
  = enabled c a || all a || (merge a && in_checks merge_checks c)
    || (fast a && in_checks fast_checks c).
Proof.
  unfold enable_groups.
  destruct (fast a) eqn:Hf, (merge a) eqn:Hm, (all a) eqn:Ha;
    repeat (progress (cbv beta iota zeta; cbn [orb];
                      rewrite ?merge_assign, ?all_assign, ?Hf, ?Hm, ?Ha));
    destruct c; cbn; rewrite ?orb_true_r, ?orb_false_r; reflexivity.
Qed.

Lemma enable_groups_frame a :
  fast (enable_groups a) = fast a
  /\ merge (enable_groups a) = merge a
  /\ all (enable_groups a) = all a
  /\ only_changed_files (enable_groups a) = only_changed_files a
  /\ fix_ (enable_groups a) = fix_ a
  /\ verbose (enable_groups a) = verbose a
  /\ quiet (enable_groups a) = quiet a.
Proof.
  unfold enable_groups.
  destruct (fast a) eqn:Hf, (merge a) eqn:Hm, (all a) eqn:Ha;
    repeat (progress (cbv beta iota zeta; cbn [orb];
                      rewrite ?merge_assign, ?all_assign, ?Hf, ?Hm, ?Ha));
    cbn; repeat split; assumption.
Qed.

(** X2.  What is enabled once [process_args] has returned: a check is
    on if it was asked for, or [--all] was given, or [--merge] and the
    check is one of the merge checks, or [--fast] and it is one of the
    fast checks; the author check, in addition, only if git is there. *)
Theorem process_args_enables a out c :
  fst (process_args sys cli_error (mkState a out)) = Ok tt ->
  enabled c (st_args (snd (process_args sys cli_error (mkState a out))))
  = (enabled c a || all a || (merge a && in_checks merge_checks c)
     || (fast a && in_checks fast_checks c))
    && (if check_eqb c Authors then git_available sys else true).
Proof.
  intros Hok. destruct (process_args_ok a out Hok) as (_ & _ & ->).
  destruct (check_eqb c Authors) eqn:Hc.
  - destruct c; try discriminate Hc. cbn [enabled].
    rewrite settle_authors_authors.
    change (authors (enable_groups a)) with (enabled Authors (enable_groups a)).
    now rewrite enable_groups_enabled.
  - rewrite settle_authors_enabled by (intros ->; discriminate Hc).
    now rewrite enable_groups_enabled, andb_true_r.
Qed.

(** X3.  When [process_args] fails with [cli.error], it is an exit with
    status 2, and the last thing shown is the message of the first
    requirement that is not met, in the order of the tests. *)
Theorem process_args_exit a out e :
  fst (process_args sys cli_error (mkState a out)) = Raise e ->
  e = SystemExit 2
  /\ exists message,
       first_error sys (enable_groups a) = Some message
       /\ last (st_console (snd (process_args sys cli_error (mkState a out))))
          = Some (Error message).
Proof.
  rewrite process_args_run.
  unfold process_args_outcome, requirements_outcome, first_error.
  destruct (early_error sys (enable_groups a)) as [m|].
  - cbn. intros [= <-]. split; [reflexivity|]. exists m. split; [reflexivity|].
    apply last_snoc.
  - destruct (late_error sys (enable_groups a)) as [m|]; [|discriminate].
    cbn. intros [= <-]. split; [reflexivity|]. exists m. split; [reflexivity|].
    apply last_snoc.
Qed.

End ProcessArgs.

Section Main.

Context `{Checkers}.
Variable sys : System.

Lemma get_changed_files_run ref s :
  get_changed_files sys ref s = (changed_files_of sys ref, s).
Proof.
  unfold get_changed_files, changed_files_of.
  rewrite Cmd_bind_run.
  destruct (check_output sys _) as [raw|e].
  - rewrite Cmd_bind_run. unfold lift_result.
    destruct (decode_ascii raw); reflexivity.
  - destruct e; reflexivity.
Qed.







End Main.

Section ChangedFiles.

Variable sys : System.

Lemma append_nil_l s : EmptyString +:+ s = s.
Proof. reflexivity. Qed.

Lemma append_cons a s t : String a s +:+ t = String a (s +:+ t).
Proof. reflexivity. Qed.

Lemma append_assoc s t u : (s +:+ t) +:+ u = s +:+ (t +:+ u).
Proof.
  induction s as [|a s IH]; [reflexivity|].
  rewrite !append_cons. now rewrite IH.
Qed.

Lemma split_nonempty sep s : split sep s <> [].
Proof.
  destruct s as [|a s]; cbn; [discriminate|].
  destruct (Ascii.eqb a sep); [discriminate|].
  destruct (split sep s); discriminate.
Qed.

Lemma decode_encode s : is_ascii s = true -> decode_ascii (encode_ascii s) = Ok s.
Proof.
  induction s as [|a s IH]; cbn; [reflexivity|].
  intros Hs. apply andb_true_iff in Hs as [Ha Hs].
  assert (Hb : Byte.to_N (byte_of_ascii a) = N_of_ascii a).
  { apply Byte.to_of_N. symmetry. apply byte_of_ascii_via_N. }
  rewrite Hb.
  assert (Hlt : (N_of_ascii a <? 128)%N = true).
  { apply N.ltb_lt. apply Nat.leb_le in Ha. unfold nat_of_ascii in Ha. lia. }
  rewrite Hlt, (IH Hs). cbn. now rewrite ascii_of_byte_of_ascii.
Qed.

Lemma split_no_sep sep s : has_char sep s = false -> split sep s = [s].
Proof.
  induction s as [|a s IH]; cbn -[Ascii.eqb]; [reflexivity|].
  intros Hs. apply orb_false_iff in Hs as [Ha Hs].
  now rewrite Ha, (IH Hs).
Qed.

Lemma split_app sep s t :
  has_char sep s = false ->
  split sep (s +:+ String sep t) = s :: split sep t.
Proof.
  induction s as [|a s IH]; cbn -[Ascii.eqb].
  - intros _. rewrite append_nil_l. cbn -[Ascii.eqb]. now rewrite Ascii.eqb_refl.
  - intros Hs. apply orb_false_iff in Hs as [Ha Hs].
    rewrite append_cons. cbn -[Ascii.eqb]. now rewrite Ha, (IH Hs).
Qed.

Lemma split_join names :
  names <> [] ->
  forallb (fun name => negb (has_char newline name)) names = true ->
  split newline (join_lines names) = names.
Proof.
  induction names as [|name names IH]; [congruence|].
  intros _ Hall. cbn [forallb] in Hall.
  apply andb_true_iff in Hall as [Hname Hall].
  apply negb_true_iff in Hname.
  destruct names as [|name' names].
  - cbn. now apply split_no_sep.
  - change (join_lines (name :: name' :: names))
      with (name +:+ String newline (join_lines (name' :: names))).
    rewrite split_app by assumption.
    f_equal. now apply IH.
Qed.

Lemma unlines_join names :
  names <> [] -> unlines names = join_lines names +:+ String newline EmptyString.
Proof.
  induction names as [|name names IH]; [congruence|]. intros _.
  destruct names as [|name' names]; [reflexivity|].
  change (unlines (name :: name' :: names))
    with (name +:+ String newline (unlines (name' :: names))).
  rewrite IH by discriminate.
  change (join_lines (name :: name' :: names))
    with (name +:+ String newline (join_lines (name' :: names))).
  rewrite append_assoc, append_cons. reflexivity.
Qed.

Lemma lstrip_clean s : clean_start s = true -> lstrip s = s.
Proof.
  destruct s as [|a s]; cbn -[is_space]; [discriminate|].
  intros Ha. apply negb_true_iff in Ha. now rewrite Ha.
Qed.

Lemma rstrip_newline s :
  clean_end s = true -> rstrip (s +:+ String newline EmptyString) = s.
Proof.
  assert (Hnl : is_space newline = true) by reflexivity.
  induction s as [|a s IH]; cbn -[is_space]; [discriminate|].
  destruct s as [|b s].
  - intros Ha. apply negb_true_iff in Ha.
    rewrite append_cons, append_nil_l. cbn -[is_space newline].
    now rewrite Hnl, Ha.
  - intros Hs. specialize (IH Hs).
    rewrite append_cons. cbn -[is_space String.append].
    rewrite IH. reflexivity.
Qed.

Lemma clean_start_app s t : clean_start s = true -> clean_start (s +:+ t) = true.
Proof. destruct s; [discriminate | trivial]. Qed.

Lemma clean_end_app s t :
  t <> EmptyString -> clean_end (s +:+ t) = clean_end t.
Proof.
  intros Ht. induction s as [|a s IH]; [reflexivity|].
  rewrite append_cons. cbn -[is_space]. rewrite IH.
  destruct (s +:+ t) eqn:Hst; [|reflexivity].
  destruct s; [rewrite append_nil_l in Hst; congruence | discriminate Hst].
Qed.

Lemma clean_start_join names :
  clean_start (hd EmptyString names) = true ->
  clean_start (join_lines names) = true.
Proof.
  destruct names as [|name [|name' names]]; cbn [hd join_lines]; trivial.
  apply clean_start_app.
Qed.

Lemma clean_end_nonempty s : clean_end s = true -> s <> EmptyString.
Proof. destruct s; [discriminate | discriminate]. Qed.

Lemma clean_end_join names :
  clean_end (List.last names EmptyString) = true ->
  clean_end (join_lines names) = true.
Proof.
  induction names as [|name names IH]; [trivial|].
  destruct names as [|name' names]; [trivial|].
  intros Hlast.
  change (join_lines (name :: name' :: names))
    with (name +:+ String newline (join_lines (name' :: names))).
  specialize (IH Hlast).
  rewrite clean_end_app by discriminate.
  cbn [clean_end].
  destruct (join_lines (name' :: names)) eqn:Hj; [discriminate IH | exact IH].
Qed.

Lemma strip_unlines names :
  names <> [] ->
  clean_start (hd EmptyString names) = true ->
  clean_end (List.last names EmptyString) = true ->
  strip (unlines names) = join_lines names.
Proof.
  intros Hne Hstart Hend. unfold strip.
  rewrite unlines_join by assumption.
  rewrite lstrip_clean by (apply clean_start_app, clean_start_join, Hstart).
  apply rstrip_newline, clean_end_join, Hend.
Qed.

Lemma is_ascii_app s t : is_ascii (s +:+ t) = is_ascii s && is_ascii t.
Proof.
  induction s as [|a s IH]; [reflexivity|].
  rewrite append_cons. cbn [is_ascii]. now rewrite IH, andb_assoc.
Qed.

Lemma is_ascii_unlines names :
  forallb is_ascii names = true -> is_ascii (unlines names) = true.
Proof.
  induction names as [|name names IH]; cbn; [reflexivity|].
  intros H. apply andb_true_iff in H as [Hn Hr].
  rewrite is_ascii_app, Hn. cbn. now apply IH.
Qed.

(** X5.  When git prints one name per line, the names being ASCII
    without newlines and the output neither starting nor ending with a
    character that [strip] removes, [get_changed_files] returns the set
    of these names and leaves the state alone. *)
Theorem get_changed_files_lines ref s names :
  check_output sys ["git"; "diff"; "--name-only"; "--diff-filter=ACMRTUXB"; ref]
  = Ok (encode_ascii (unlines names)) ->
  names <> [] ->
  forallb (fun name => is_ascii name && negb (has_char newline name)) names = true ->
  clean_start (hd EmptyString names) = true ->
  clean_end (List.last names EmptyString) = true ->
  get_changed_files sys ref s = (Ok (list_to_set names), s).
Proof.
  intros Hout Hne Hall Hstart Hend.
  rewrite get_changed_files_run. unfold changed_files_of. rewrite Hout.
  assert (Hascii : forallb is_ascii names = true).
  { rewrite forallb_forall in *. intros n Hn.
    now destruct (andb_prop _ _ (Hall n Hn)). }
  assert (Hnl : forallb (fun name => negb (has_char newline name)) names = true).
  { rewrite forallb_forall in *. intros n Hn.
    now destruct (andb_prop _ _ (Hall n Hn)). }
  rewrite decode_encode by (apply is_ascii_unlines, Hascii).
  rewrite strip_unlines by assumption.
  now rewrite split_join.
Qed.

(** X6.  The set that [get_changed_files] returns is never empty: when
    git prints nothing, the set holds the empty name. *)
Theorem get_changed_files_never_empty ref s files :
  fst (get_changed_files sys ref s) = Ok files ->
  files <> ∅
  /\ (check_output sys ["git"; "diff"; "--name-only"; "--diff-filter=ACMRTUXB"; ref]
      = Ok [] -> files = {[ EmptyString ]}).
Proof.
  rewrite get_changed_files_run. unfold changed_files_of. cbn [fst].
  destruct (check_output sys _) as [raw|e].
  - destruct (decode_ascii raw) as [text|e] eqn:Hdec; [|discriminate].
    intros [= <-]. split.
    + pose proof (split_nonempty newline (strip text)) as Hne.
      destruct (split newline (strip text)) as [|piece pieces]; [congruence|].
      cbn. set_solver.
    + intros [= ->]. cbn in Hdec. injection Hdec as <-. cbn. set_solver.
  - destruct e; discriminate.
Qed.


End ChangedFiles.

Section Script.

Context `{Checkers}.
Variable sys : System.



End Script.

(** ** Instances on the concrete machines *)

Import compliance_sample.

Lemma process_args_requirements_witness :
  requirement_met full_machine
    (st_args (snd (process_args full_machine cli_error (mkState option_merge []))))
    Pylint
  = true.
Proof.
  apply process_args_requirements; vm_compute; reflexivity.
Defined.

Lemma process_args_enables_witness :
  enabled Authors
    (st_args (snd (process_args bare_machine cli_error (mkState option_fast []))))
  = (enabled Authors option_fast || all option_fast
     || (merge option_fast && in_checks merge_checks Authors)
     || (fast option_fast && in_checks fast_checks Authors))
    && (if check_eqb Authors Authors then git_available bare_machine else true).
Proof.
  apply process_args_enables. vm_compute. reflexivity.
Defined.

Lemma process_args_exit_witness :
  SystemExit 2 = SystemExit 2
  /\ exists message,
       first_error bare_machine (enable_groups no_options) = Some message
       /\ last (st_console (snd (process_args bare_machine cli_error
                                   (mkState no_options []))))
          = Some (Error message).
Proof.
  apply (process_args_exit bare_machine no_options [] (SystemExit 2)).
  vm_compute. reflexivity.
Defined.

Lemma get_changed_files_lines_witness :
  get_changed_files full_machine "HEAD" start
  = (Ok (list_to_set changed_names), start).
Proof.
  apply get_changed_files_lines.
  - reflexivity.
  - discriminate.
  - vm_compute. reflexivity.
  - vm_compute. reflexivity.
  - vm_compute. reflexivity.
Defined.

Lemma get_changed_files_never_empty_witness :
  (list_to_set [EmptyString] : gset string) <> ∅
  /\ (check_output quiet_machine
        ["git"; "diff"; "--name-only"; "--diff-filter=ACMRTUXB"; "HEAD"]
      = Ok [] ->
      (list_to_set [EmptyString] : gset string) = {[ EmptyString ]}).
Proof.
  apply (get_changed_files_never_empty quiet_machine "HEAD" start).
  reflexivity.
Defined.

